(** * ShoppyGlobe cart API: a shallow embedding of [server.js]

    The cart routes of [server.js] ([GET /cart], [POST /cart],
    [PUT /cart/:id], [DELETE /cart/:id]) together with the
    [validateCartItem] middleware are transcribed as functions over an
    explicit store holding the [Product] and [CartItem] collections.

    Modelling conventions.
    - A JavaScript number is the rational ([Q]) it denotes, with
      [2 ^ 1024] and its opposite standing for the two infinities.
      Comparisons of doubles are comparisons of these rationals; the
      sum of two quantities is rounded to the nearest double, ties to
      even ([JS.add], [JS.round]).
    - A field of a JSON request body is a [JS.Value]: absent
      ([undefined]) or a number.  Bodies carrying strings, booleans or
      objects in these fields are outside the model.
    - A collection is keyed by the document's [_id], which MongoDB keeps
      unique; an [ObjectId] is an opaque key, and [toString] on it is
      injective, so comparing the strings is comparing the keys.  The
      route parameter [:id] is a well-formed [ObjectId].
    - The [authenticate] middleware is an external collaborator: a handler
      receives the resolved [req.user._id].
    - The store is reachable: the only exceptions are the ones the code
      itself can provoke (a property read on [null], a Mongoose validator
      rejecting a document on [save]). *)

From Stdlib Require Import ZArith QArith Qround Qpower Qabs Lqa String.
From stdpp Require Import base option list gmap strings.

(** ** JavaScript values and the operators the handlers use *)

Module JS.
Local Open Scope Q_scope.

Inductive Value : Type :=
| undefined
| NaN
| Num (q : Q).

(** [!v]: [undefined], [NaN] and [0] are falsy. *)
Definition not (v : Value) : bool :=
  match v with
  | Num q => Qeq_bool q 0
  | _ => true
  end.

(** [a < b] on numbers; any comparison involving [NaN] (or [undefined],
    which converts to [NaN]) is false. *)
Definition lt (a b : Value) : bool :=
  match a, b with
  | Num x, Num y => negb (Qle_bool y x)
  | _, _ => false
  end.

(** *** Rounding to a double

    A finite double is [m * 2 ^ u] for an integer [m] of at most 53 bits
    and [-1074 <= u <= 971]. *)

(** The integer nearest to [y]; half-way between two, the even one. *)
Definition nearest_even (y : Q) : Z :=
  let n := Qfloor y in
  match Qcompare (y - inject_Z n) (1 # 2) with
  | Lt => n
  | Gt => (n + 1)%Z
  | Eq => if Z.even n then n else (n + 1)%Z
  end.

(** For [0 < x], the exponent [e] with [2 ^ e <= x < 2 ^ (e + 1)]: the
    bit lengths of numerator and denominator give it up to one. *)
Definition binade (x : Q) : Z :=
  let e := (Z.log2 (Qnum x) - Z.log2 (Zpos (Qden x)))%Z in
  if Qle_bool (2 ^ e) x then e else (e - 1)%Z.

Definition infinity : Q := 2 ^ 1024.

(** The double nearest to [x], for [0 < x]: [x] is rounded to a multiple
    of the unit in the last place of its binade (of the subnormals below
    [2 ^ -1022]), and what reaches [2 ^ 1024] is infinite. *)
Definition round_pos (x : Q) : Q :=
  let u := Z.max (binade x - 52) (-1074) in
  let r := inject_Z (nearest_even (x / 2 ^ u)) * 2 ^ u in
  if Qle_bool infinity r then infinity else r.

Definition round (x : Q) : Q :=
  match Qnum x with
  | Z0 => x
  | Zpos _ => round_pos x
  | Zneg _ => - round_pos (- x)
  end.

Definition is_infinite (x : Q) : bool := Qle_bool infinity (Qabs x).

(** [a + b] on numbers: an infinite operand decides the sum (two
    infinities of opposite signs have none); the sum of finite doubles is
    rounded. *)
Definition add (a b : Value) : Value :=
  match a, b with
  | Num x, Num y =>
      if is_infinite x then
        if is_infinite y && negb (Bool.eqb (Qle_bool 0 x) (Qle_bool 0 y))
        then NaN else Num x
      else if is_infinite y then Num y
      else Num (round (x + y))
  | _, _ => NaN
  end.

(** Truncation towards zero. *)
Definition trunc (q : Q) : Q :=
  inject_Z (Z.quot (Qnum q) (Zpos (Qden q))).

(** [parseInt(v)] on a number prints it and reads the leading integer:
    in plain decimal notation, which is how the numbers from [1e-6] up to
    [1e21] excluded print, this is truncation towards zero. *)
Definition parseInt (v : Value) : Value :=
  match v with
  | Num q => Num (trunc q)
  | _ => NaN
  end.

Definition is_integer (q : Q) : bool :=
  (Zpos (Qden (Qred q)) =? 1)%Z.

(** [Number.isInteger(v)] *)
Definition Number_isInteger (v : Value) : bool :=
  match v with
  | Num q => is_integer q
  | _ => false
  end.

End JS.

(** ** Schemas *)

Abbreviation ObjectId := positive (only parsing).

(** [productSchema] *)
Module Product.
Record t : Type := mk {
  id : Q;
  title : string;
  description : string;
  category : string;
  price : Q;
  rating : Q;
  stock : Q
}.
End Product.

(** [cartItemSchema]; the document's [_id] is its key in the collection. *)
Module CartItem.
Record t : Type := mk {
  user : ObjectId;
  product : Q;
  quantity : Q;
  addedAt : Z
}.

Definition set_quantity (q : Q) (d : t) : t :=
  {| user := user d; product := product d; quantity := q;
     addedAt := addedAt d |}.
End CartItem.

(** The database: the [Product] collection in catalog order and the
    [CartItem] collection keyed by [_id]. *)
Record Store : Type := mkStore {
  products : list Product.t;
  cartItems : gmap positive CartItem.t
}.

(** ** Requests and responses *)

(** [req.body] of the cart routes. *)
Module Body.
Record t : Type := mk {
  productId : JS.Value;
  quantity : JS.Value
}.
End Body.

(** [{ ...item.toObject(), product }]: the spread copies the stored
    fields and the joined product (or [null]) replaces the product id. *)
Module Populated.
Record t : Type := mk {
  _id : ObjectId;
  user : ObjectId;
  quantity : Q;
  addedAt : Z;
  product : option Product.t
}.
End Populated.

Inductive Json : Type :=
| ErrorJson (error : string)
| MessageJson (message : string)
| CartItemJson (message : string) (cartItem : Populated.t)
| CartJson (items : list Populated.t).

Record Response : Type := mkResponse {
  status : N;
  json : Json
}.

(** The error taxonomy of the specification, read off a response: the
    status code decides, and among the 400s the stock message singles out
    the insufficient-stock case. *)
Inductive CartError : Type :=
| ValidationError
| NotFoundError
| ForbiddenError
| InsufficientStockError
| StorageError
| AuthError.

Definition not_enough_stock : string := "Not enough stock available".

Definition error_of (r : Response) : option CartError :=
  match status r with
  | 400%N =>
      match json r with
      | ErrorJson msg =>
          if String.eqb msg not_enough_stock
          then Some InsufficientStockError
          else Some ValidationError
      | _ => Some ValidationError
      end
  | 401%N => Some AuthError
  | 403%N => Some ForbiddenError
  | 404%N => Some NotFoundError
  | 500%N => Some StorageError
  | _ => None
  end.

(** ** A state-and-exception monad for the bodies of the handlers *)

Inductive Exn : Type :=
| TypeError          (* property read on null *)
| CastError          (* a value that is not a number where the schema wants one *)
| ValidatorError.    (* a schema validator ([min: 1]) rejecting a document *)

Inductive Result (A : Type) : Type :=
| Ok (a : A)
| Throw (e : Exn).
Arguments Ok {A} a.
Arguments Throw {A} e.

Definition M (A : Type) : Type := Store -> Store * Result A.

Definition ret {A} (a : A) : M A := fun s => (s, Ok a).

Definition throw {A} (e : Exn) : M A := fun s => (s, Throw e).

Definition bind {A B} (m : M A) (k : A -> M B) : M B :=
  fun s =>
    match m s with
    | (s', Ok a) => k a s'
    | (s', Throw e) => (s', Throw e)
    end.

Notation "x <- m ;; k" := (bind m (fun x => k))
  (at level 100, m at next level, right associativity).

(** [try { body } catch (error) { handler }] *)
Definition try_catch (body : M Response) (handler : Exn -> Response)
  : Store -> Store * Response :=
  fun s =>
    match body s with
    | (s', Ok r) => (s', r)
    | (s', Throw e) => (s', handler e)
    end.

Fixpoint mapM {A B} (f : A -> M B) (l : list A) : M (list B) :=
  match l with
  | [] => ret []
  | a :: l' => b <- f a ;; bs <- mapM f l' ;; ret (b :: bs)
  end.

(** ** The Mongoose calls *)

(** A cart document in memory: its [_id] and its fields. *)
Definition Doc : Type := ObjectId * CartItem.t.

(** The first product of the catalog whose [id] is [n]. *)
Definition product_with_id (s : Store) (n : Q) : option Product.t :=
  List.find (fun p => Qeq_bool (Product.id p) n) (products s).

(** [Product.findOne({ id: n })] *)
Definition Product_findOne (n : Q) : M (option Product.t) :=
  fun s => (s, Ok (product_with_id s n)).

(** The filter of a query is cast by the schema: a number passes, anything
    else is a cast error. *)
Definition castNumber (v : JS.Value) : M Q :=
  match v with
  | JS.Num q => ret q
  | _ => throw CastError
  end.

(** [CartItem.find({ user: u })] *)
Definition CartItem_find (u : ObjectId) : M (list Doc) :=
  fun s =>
    (s, Ok (List.filter (fun d : Doc => Pos.eqb (CartItem.user d.2) u)
              (map_to_list (cartItems s)))).

(** [CartItem.findOne({ user: u, product: p })]: one matching document;
    without a sort the choice among several is the store's, here the
    first in the enumeration of the collection. *)
Definition CartItem_findOne (u : ObjectId) (p : Q) : M (option Doc) :=
  fun s =>
    (s, Ok (List.find
              (fun d : Doc =>
                 Pos.eqb (CartItem.user d.2) u
                 && Qeq_bool (CartItem.product d.2) p)
              (map_to_list (cartItems s)))).

(** [CartItem.findById(id)] *)
Definition CartItem_findById (i : ObjectId) : M (option Doc) :=
  fun s => (s, Ok (pair i <$> cartItems s !! i)).

(** [new CartItem({ user, product, quantity })]: the driver draws an
    [_id] that no document of the collection carries, and [addedAt]
    defaults to the clock. *)
Definition CartItem_new (u : ObjectId) (p q : Q) (now : Z) : M Doc :=
  fun s =>
    (s, Ok (fresh (dom (cartItems s)),
            {| CartItem.user := u; CartItem.product := p;
               CartItem.quantity := q; CartItem.addedAt := now |})).

(** A write to the [CartItem] collection leaves the other collection
    alone. *)
Definition with_cartItems (s : Store) (c : gmap positive CartItem.t) : Store :=
  {| products := products s; cartItems := c |}.

(** [doc.save()]: the schema validators run first ([quantity] has
    [min: 1]); a valid document is written under its [_id]. *)
Definition CartItem_save (d : Doc) : M unit :=
  fun s =>
    if Qle_bool 1 (CartItem.quantity d.2)
    then (with_cartItems s (<[d.1 := d.2]> (cartItems s)), Ok tt)
    else (s, Throw ValidatorError).

(** [doc.deleteOne()] *)
Definition CartItem_deleteOne (d : Doc) : M unit :=
  fun s => (with_cartItems s (delete d.1 (cartItems s)), Ok tt).

(** ** Responses *)

Definition res_error (code : N) (msg : string) : Response :=
  {| status := code; json := ErrorJson msg |}.

Definition server_error (_ : Exn) : Response :=
  res_error 500 "Server error".

Definition populate (d : Doc) (p : option Product.t) : Populated.t :=
  {| Populated._id := d.1;
     Populated.user := CartItem.user d.2;
     Populated.quantity := CartItem.quantity d.2;
     Populated.addedAt := CartItem.addedAt d.2;
     Populated.product := p |}.

Definition res_added (d : Doc) (p : option Product.t) : Response :=
  {| status := 201;
     json := CartItemJson "Product added to cart" (populate d p) |}.

Definition res_updated (d : Doc) (p : option Product.t) : Response :=
  {| status := 200;
     json := CartItemJson "Cart item updated" (populate d p) |}.

Definition res_removed : Response :=
  {| status := 200; json := MessageJson "Item removed from cart" |}.

(** ** [validateCartItem] *)

(** A middleware either answers the request or calls [next()]; on
    [next()] it has left the product it found in [req.product]. *)
Inductive Middleware : Type :=
| Responded (r : Response)
| Next (req_product : Product.t).

Definition validateCartItem (body : Body.t) : Store -> Store * Middleware :=
  fun s =>
    let productId := Body.productId body in
    let quantity := Body.quantity body in
    if JS.not productId || JS.not quantity then
      (s, Responded (res_error 400 "Product ID and quantity are required"))
    else if negb (JS.Number_isInteger (JS.parseInt productId)) then
      (s, Responded (res_error 400 "Invalid product ID"))
    else if JS.lt quantity (JS.Num 1) then
      (s, Responded (res_error 400 "Quantity must be at least 1"))
    else
      match (n <- castNumber (JS.parseInt productId) ;;
             Product_findOne n) s with
      | (s', Ok None) => (s', Responded (res_error 404 "Product not found"))
      | (s', Ok (Some product)) =>
          if JS.lt (JS.Num (Product.stock product)) quantity then
            (s', Responded (res_error 400 not_enough_stock))
          else (s', Next product)
      | (s', Throw e) => (s', Responded (server_error e))
      end.

(** ** The cart routes *)

(** [app.get('/cart', authenticate, ...)] *)
Definition get_cart (u : ObjectId) : Store -> Store * Response :=
  try_catch
    (cartItems <- CartItem_find u ;;
     populatedItems <-
       mapM (fun item : Doc =>
               product <- Product_findOne (CartItem.product item.2) ;;
               ret (populate item product))
            cartItems ;;
     ret {| status := 200; json := CartJson populatedItems |})
    server_error.

(** [app.post('/cart', authenticate, validateCartItem, ...)] *)
Definition post_cart (u : ObjectId) (body : Body.t) (now : Z)
  : Store -> Store * Response :=
  fun s =>
    match validateCartItem body s with
    | (s1, Responded r) => (s1, r)
    | (s1, Next _) =>
        let productId := Body.productId body in
        let quantity := Body.quantity body in
        try_catch
          (p <- castNumber productId ;;
           found <- CartItem_findOne u p ;;
           cartItem <-
             match found with
             | Some cartItem =>
                 (* cartItem.quantity += quantity *)
                 q <- castNumber
                        (JS.add (JS.Num (CartItem.quantity cartItem.2)) quantity) ;;
                 let cartItem := (cartItem.1, CartItem.set_quantity q cartItem.2) in
                 _ <- CartItem_save cartItem ;;
                 ret cartItem
             | None =>
                 q <- castNumber quantity ;;
                 cartItem <- CartItem_new u p q now ;;
                 _ <- CartItem_save cartItem ;;
                 ret cartItem
             end ;;
           product <- Product_findOne p ;;
           ret (res_added cartItem product))
          server_error s1
    end.

(** [app.put('/cart/:id', authenticate, ...)] *)
Definition put_cart (u : ObjectId) (id : ObjectId) (body : Body.t)
  : Store -> Store * Response :=
  fun s =>
    let quantity := Body.quantity body in
    if JS.not quantity || JS.lt quantity (JS.Num 1) then
      (s, res_error 400 "Quantity must be at least 1")
    else
      try_catch
        (found <- CartItem_findById id ;;
         match found with
         | None => ret (res_error 404 "Cart item not found")
         | Some cartItem =>
             if negb (Pos.eqb (CartItem.user cartItem.2) u) then
               ret (res_error 403 "Not authorized to update this cart item")
             else
               found_product <- Product_findOne (CartItem.product cartItem.2) ;;
               match found_product with
               | None => throw TypeError   (* product.stock on null *)
               | Some product =>
                   if JS.lt (JS.Num (Product.stock product)) quantity then
                     ret (res_error 400 not_enough_stock)
                   else
                     (* cartItem.quantity = quantity *)
                     q <- castNumber quantity ;;
                     let cartItem :=
                       (cartItem.1, CartItem.set_quantity q cartItem.2) in
                     _ <- CartItem_save cartItem ;;
                     ret (res_updated cartItem (Some product))
               end
         end)
        server_error s.

(** [app.delete('/cart/:id', authenticate, ...)] *)
Definition delete_cart (u : ObjectId) (id : ObjectId)
  : Store -> Store * Response :=
  try_catch
    (found <- CartItem_findById id ;;
     match found with
     | None => ret (res_error 404 "Cart item not found")
     | Some cartItem =>
         if negb (Pos.eqb (CartItem.user cartItem.2) u) then
           ret (res_error 403 "Not authorized to delete this cart item")
         else
           _ <- CartItem_deleteOne cartItem ;;
           ret res_removed
     end)
    server_error.

(** ** The operations of the Cart Manager, as the specification names them *)

Definition ListCart (s : Store) (u : ObjectId) : Store * Response :=
  get_cart u s.

Definition AddItem (s : Store) (u : ObjectId) (productId quantity : Q) (now : Z)
  : Store * Response :=
  post_cart u {| Body.productId := JS.Num productId;
                 Body.quantity := JS.Num quantity |} now s.

Definition UpdateItem (s : Store) (u : ObjectId) (id : ObjectId) (newQuantity : Q)
  : Store * Response :=
  put_cart u id {| Body.productId := JS.undefined;
                   Body.quantity := JS.Num newQuantity |} s.

Definition RemoveItem (s : Store) (u : ObjectId) (id : ObjectId)
  : Store * Response :=
  delete_cart u id s.

(** ** Vocabulary of the properties *)

(** An entry of user [u] for product id [p]. *)
Definition entry_for (u : ObjectId) (p : Q) (it : CartItem.t) : Prop :=
  CartItem.user it = u /\ (CartItem.product it == p)%Q.

(** ** A sample database

    One product with id 1 and ten units in stock, as in the scenario of
    the specification; carts over it. *)

Definition phone : Product.t :=
  {| Product.id := 1; Product.title := "Phone";
     Product.description := "A phone"; Product.category := "electronics";
     Product.price := 99; Product.rating := 4; Product.stock := 10 |}.

Definition shop : Store := {| products := [phone]; cartItems := ∅ |}.

(** User 7 holds [q] units of the product with id [p] under the cart
    item id 1. *)
Definition shop_with (p q : Q) : Store :=
  {| products := [phone];
     cartItems := {[ 1%positive :=
                     {| CartItem.user := 7%positive; CartItem.product := p;
                        CartItem.quantity := q; CartItem.addedAt := 0 |} ]} |}.

(** A catalog whose one product has [2 ^ 53] units in stock: every
    integer up to [2 ^ 53] is a double, [2 ^ 53 + 1] is not. *)
Definition crate : Product.t :=
  {| Product.id := 1; Product.title := "Crate";
     Product.description := "A crate of screws"; Product.category := "hardware";
     Product.price := 1; Product.rating := 4;
     Product.stock := 9007199254740992 |}.

Definition depot : Store := {| products := [crate]; cartItems := ∅ |}.

(** ** Sequences of requests *)

Inductive Request : Type :=
| GET_cart (u : ObjectId)
| POST_cart (u : ObjectId) (body : Body.t) (now : Z)
| PUT_cart (u : ObjectId) (id : ObjectId) (body : Body.t)
| DELETE_cart (u : ObjectId) (id : ObjectId).

Definition handle (r : Request) : Store -> Store * Response :=
  match r with
  | GET_cart u => get_cart u
  | POST_cart u body now => post_cart u body now
  | PUT_cart u id body => put_cart u id body
  | DELETE_cart u id => delete_cart u id
  end.

(** The store after serving the requests one after the other. *)
Fixpoint serve (rs : list Request) (s : Store) : Store :=
  match rs with
  | [] => s
  | r :: rs' => serve rs' (handle r s).1
  end.

(** Every stored quantity is at least 1. *)
Definition quantities_valid (s : Store) : Prop :=
  forall i it, cartItems s !! i = Some it -> (1 <= CartItem.quantity it)%Q.

(** What a request can do to the store: nothing, a write of one cart
    item that passed the validators, or the removal of one. *)
Inductive effect (r : Request) (s : Store) : Store -> Prop :=
| effect_none : effect r s s
| effect_save i it :
    (1 <= CartItem.quantity it)%Q ->
    effect r s (with_cartItems s (<[i := it]> (cartItems s)))
| effect_delete i :
    effect r s (with_cartItems s (delete i (cartItems s))).

(** * The catalog routes

    [validateProductId], [GET /products], [GET /products/:id] and
    [POST /products].  A JavaScript string is a sequence of code units
    below 256, one [ascii] each; the fields of the body of
    [POST /products] are absent or of the type the schema names. *)

From Stdlib Require Import Ascii NArith.

(** ** Strings and [parseInt] on a string *)

Module JSString.

(** White space and line terminators among the code units below 256:
    TAB, LF, VT, FF, CR, SP and NBSP. *)
Definition is_white_space (c : ascii) : bool :=
  let n := N_of_ascii c in
  ((9 <=? n) && (n <=? 13) || (n =? 32) || (n =? 160))%N.

Fixpoint trimStart (s : string) : string :=
  match s with
  | EmptyString => EmptyString
  | String c r => if is_white_space c then trimStart r else s
  end.

Fixpoint trimEnd (s : string) : string :=
  match s with
  | EmptyString => EmptyString
  | String c r =>
      match trimEnd r with
      | EmptyString =>
          if is_white_space c then EmptyString else String c EmptyString
      | r' => String c r'
      end
  end.

(** [s.trim()] *)
Definition trim (s : string) : string := trimEnd (trimStart s).

(** The value of a character as a digit: [0-9], then [a-z] and [A-Z]
    from ten on. *)
Definition digit_of (c : ascii) : option N :=
  let n := N_of_ascii c in
  if ((48 <=? n) && (n <=? 57))%N then Some (n - 48)%N
  else if ((97 <=? n) && (n <=? 122))%N then Some (n - 87)%N
  else if ((65 <=? n) && (n <=? 90))%N then Some (n - 55)%N
  else None.

Definition radix_digit (R : N) (c : ascii) : option N :=
  match digit_of c with
  | Some d => if (d <? R)%N then Some d else None
  | None => None
  end.

(** The digits of radix [R] at the head of [s]. *)
Fixpoint leading_digits (R : N) (s : string) : list N :=
  match s with
  | EmptyString => []
  | String c r =>
      match radix_digit R c with
      | Some d => d :: leading_digits R r
      | None => []
      end
  end.

(** The number a sequence of digits, most significant first, denotes. *)
Definition digits_value (R : N) (ds : list N) : N :=
  fold_left (fun acc d => (acc * R + d)%N) ds 0%N.

(** An optional sign at the head of [s]: whether it is a minus, and what
    follows. *)
Definition strip_sign (s : string) : bool * string :=
  match s with
  | String c r =>
      if (c =? "-")%char then (true, r)
      else if (c =? "+")%char then (false, r)
      else (false, s)
  | EmptyString => (false, s)
  end.

(** [0x] or [0X] at the head of [s] selects radix 16 and is dropped;
    otherwise the radix is 10. *)
Definition strip_prefix (s : string) : N * string :=
  match s with
  | String c0 (String c1 r) =>
      if (c0 =? "0")%char && ((c1 =? "x")%char || (c1 =? "X")%char)
      then (16%N, r) else (10%N, s)
  | _ => (10%N, s)
  end.

(** [parseInt(s)] without a radix: leading white space is skipped, a sign
    is read, [0x] or [0X] switches to radix 16, and the longest run of
    digits is read; no digit at all gives [NaN]. *)
Definition parseInt (s : string) : JS.Value :=
  let '(negative, s2) := strip_sign (trimStart s) in
  let '(R, s3) := strip_prefix s2 in
  match leading_digits R s3 with
  | [] => JS.NaN
  | ds =>
      let n := Z.of_N (digits_value R ds) in
      JS.Num (inject_Z (if negative then (- n)%Z else n))
  end.

End JSString.

(** ** Requests and responses of the catalog routes *)

(** [req.body] of [POST /products]. *)
Module ProductBody.
Record t : Type := mk {
  title : option string;
  description : option string;
  category : option string;
  price : JS.Value;
  rating : JS.Value;
  stock : JS.Value
}.
End ProductBody.

Inductive CatalogJson : Type :=
| CatalogError (error : string)
| ProductJson (product : Product.t)
| ProductsJson (products : list Product.t).

Record CatalogResponse : Type := mkCatalogResponse {
  catalog_status : N;
  catalog_json : CatalogJson
}.

Definition catalog_error (code : N) (msg : string) : CatalogResponse :=
  {| catalog_status := code; catalog_json := CatalogError msg |}.

Definition catalog_server_error (_ : Exn) : CatalogResponse :=
  catalog_error 500 "Server error".

(** [try { body } catch (error) { handler }], whatever the body
    computes. *)
Definition try_ {A} (body : M A) (handler : Exn -> A) : Store -> Store * A :=
  fun s =>
    match body s with
    | (s', Ok a) => (s', a)
    | (s', Throw e) => (s', handler e)
    end.

(** ** The Mongoose calls on [Product] *)

(** [Product.find()] *)
Definition Product_find : M (list Product.t) :=
  fun s => (s, Ok (products s)).

(** The product with the greatest [id], if there is a product. *)
Fixpoint greatest_id (ps : list Product.t) : option Product.t :=
  match ps with
  | [] => None
  | p :: ps' =>
      match greatest_id ps' with
      | None => Some p
      | Some m => if Qle_bool (Product.id m) (Product.id p) then Some p else Some m
      end
  end.

(** [Product.findOne().sort('-id')] *)
Definition Product_findOne_sort_id_desc : M (option Product.t) :=
  fun s => (s, Ok (greatest_id (products s))).

(** A [Product] document before validation: [new Product({ ... })] has
    applied the setters ([trim] on [title]) and nothing else. *)
Module ProductDraft.
Record t : Type := mk {
  id : Q;
  title : option string;
  description : option string;
  category : option string;
  price : JS.Value;
  rating : JS.Value;
  stock : JS.Value
}.
End ProductDraft.

(** [new Product({ id, title, description, category, price, rating, stock })] *)
Definition Product_new (id : Q) (body : ProductBody.t) : ProductDraft.t :=
  {| ProductDraft.id := id;
     ProductDraft.title := JSString.trim <$> ProductBody.title body;
     ProductDraft.description := ProductBody.description body;
     ProductDraft.category := ProductBody.category body;
     ProductDraft.price := ProductBody.price body;
     ProductDraft.rating := ProductBody.rating body;
     ProductDraft.stock := ProductBody.stock body |}.

(** [required: true] on a [String] path: present and not empty. *)
Definition required_string (v : option string) : M string :=
  match v with
  | Some (String c r) => ret (String c r)
  | _ => throw ValidatorError
  end.

(** [required: true], [min] and [max] on a [Number] path. *)
Definition required_number (min : Q) (max : option Q) (v : JS.Value) : M Q :=
  match v with
  | JS.Num q =>
      if JS.lt (JS.Num q) (JS.Num min) then throw ValidatorError
      else match max with
           | Some m => if JS.lt (JS.Num m) (JS.Num q) then throw ValidatorError
                       else ret q
           | None => ret q
           end
  | JS.undefined => throw ValidatorError
  | JS.NaN => throw CastError
  end.

(** The validators of [productSchema]. *)
Definition Product_validate (d : ProductDraft.t) : M Product.t :=
  title <- required_string (ProductDraft.title d) ;;
  description <- required_string (ProductDraft.description d) ;;
  category <- required_string (ProductDraft.category d) ;;
  price <- required_number 0 None (ProductDraft.price d) ;;
  rating <- required_number 0 (Some 5%Q) (ProductDraft.rating d) ;;
  stock <- required_number 0 None (ProductDraft.stock d) ;;
  ret {| Product.id := ProductDraft.id d; Product.title := title;
         Product.description := description; Product.category := category;
         Product.price := price; Product.rating := rating;
         Product.stock := stock |}.

Definition with_products (s : Store) (ps : list Product.t) : Store :=
  {| products := ps; cartItems := cartItems s |}.

(** [newProduct.save()]: the validators run, then the document is
    inserted after the others.  (The unique index on [id] is not
    modelled: [post_products] draws an [id] that no product carries.) *)
Definition Product_save (d : ProductDraft.t) : M Product.t :=
  p <- Product_validate d ;;
  fun s => (with_products s (products s ++ [p]), Ok p).

(** ** [validateProductId] *)

Inductive CatalogMiddleware : Type :=
| CatalogResponded (r : CatalogResponse)
| CatalogNext (req_product : Product.t).

Definition validateProductId (id : string) : Store -> Store * CatalogMiddleware :=
  fun s =>
    if negb (JS.Number_isInteger (JSString.parseInt id)) then
      (s, CatalogResponded (catalog_error 400 "Invalid product ID"))
    else
      match (n <- castNumber (JSString.parseInt id) ;; Product_findOne n) s with
      | (s', Ok None) =>
          (s', CatalogResponded (catalog_error 404 "Product not found"))
      | (s', Ok (Some product)) => (s', CatalogNext product)
      | (s', Throw e) => (s', CatalogResponded (catalog_server_error e))
      end.

(** ** The routes *)

(** [app.get('/products', ...)] *)
Definition get_products : Store -> Store * CatalogResponse :=
  try_ (products <- Product_find ;;
        ret {| catalog_status := 200; catalog_json := ProductsJson products |})
       catalog_server_error.

(** [app.get('/products/:id', validateProductId, ...)] *)
Definition get_product (id : string) : Store -> Store * CatalogResponse :=
  fun s =>
    match validateProductId id s with
    | (s1, CatalogResponded r) => (s1, r)
    | (s1, CatalogNext req_product) =>
        (s1, {| catalog_status := 200; catalog_json := ProductJson req_product |})
    end.

(** [app.post('/products', ...)]; [lastProduct.id + 1] is taken exactly,
    as it is for the integer ids below [2 ^ 53]. *)
Definition post_products (body : ProductBody.t) : Store -> Store * CatalogResponse :=
  try_ (lastProduct <- Product_findOne_sort_id_desc ;;
        let newId :=
          match lastProduct with
          | Some lastProduct => (Product.id lastProduct + 1)%Q
          | None => 1%Q
          end in
        let newProduct := Product_new newId body in
        savedProduct <- Product_save newProduct ;;
        ret {| catalog_status := 201; catalog_json := ProductJson savedProduct |})
       catalog_server_error.

(** ** Requests to the cart and the catalog, in sequence *)

Inductive ApiRequest : Type :=
| Cart (r : Request)
| GET_products
| GET_product (id : string)
| POST_products (body : ProductBody.t).

(** The store a request leaves. *)
Definition api_handle (r : ApiRequest) (s : Store) : Store :=
  match r with
  | Cart r => (handle r s).1
  | GET_products => (get_products s).1
  | GET_product id => (get_product id s).1
  | POST_products body => (post_products body s).1
  end.

Fixpoint api_serve (rs : list ApiRequest) (s : Store) : Store :=
  match rs with
  | [] => s
  | r :: rs' => api_serve rs' (api_handle r s)
  end.

(** ** Vocabulary of the catalog properties *)

(** A body the validators of [productSchema] accept. *)
Definition valid_product_body (b : ProductBody.t) (title description category : string)
    (price rating stock : Q) : Prop :=
  ProductBody.title b = Some title /\ JSString.trim title <> EmptyString /\
  ProductBody.description b = Some description /\ description <> EmptyString /\
  ProductBody.category b = Some category /\ category <> EmptyString /\
  ProductBody.price b = JS.Num price /\ (0 <= price)%Q /\
  ProductBody.rating b = JS.Num rating /\ (0 <= rating)%Q /\ (rating <= 5)%Q /\
  ProductBody.stock b = JS.Num stock /\ (0 <= stock)%Q.

(** The [id] the next product gets. *)
Definition next_id (s : Store) : Q :=
  match greatest_id (products s) with
  | Some lastProduct => (Product.id lastProduct + 1)%Q
  | None => 1%Q
  end.

(** The product [POST /products] stores for a valid body. *)
Definition new_product (s : Store) (title description category : string)
    (price rating stock : Q) : Product.t :=
  {| Product.id := next_id s; Product.title := JSString.trim title;
     Product.description := description; Product.category := category;
     Product.price := price; Product.rating := rating; Product.stock := stock |}.

(** A product as the validators of the schema leave it. *)
Definition product_ok (p : Product.t) : Prop :=
  JS.is_integer (Product.id p) = true /\ (1 <= Product.id p)%Q /\
  Product.title p <> EmptyString /\
  JSString.trim (Product.title p) = Product.title p /\
  Product.description p <> EmptyString /\
  Product.category p <> EmptyString /\
  (0 <= Product.price p)%Q /\
  (0 <= Product.rating p)%Q /\ (Product.rating p <= 5)%Q /\
  (0 <= Product.stock p)%Q.

(** The ids of the catalog, in catalog order, are strictly increasing:
    in particular no two products share an id. *)
Fixpoint ids_increasing (ps : list Product.t) : Prop :=
  match ps with
  | [] => True
  | p :: ps' =>
      (forall p', In p' ps' -> (Product.id p < Product.id p')%Q) /\
      ids_increasing ps'
  end.

Definition catalog_ok (s : Store) : Prop :=
  (forall p, In p (products s) -> product_ok p) /\ ids_increasing (products s).

(** A string that does not begin with white space. *)
Definition starts_clean (s : string) : Prop :=
  match s with
  | EmptyString => True
  | String c _ => JSString.is_white_space c = false
  end.

(** The products of the catalog are numbered 1, 2, 3, ... in catalog
    order. *)
Definition numbered_from_one (ps : list Product.t) : Prop :=
  forall k p, nth_error ps k = Some p ->
    (Product.id p == inject_Z (Z.of_nat k + 1))%Q.

(** The decimal numeral with the digits [ds], most significant first. *)
Definition numeral (ds : list N) : string :=
  fold_right (fun d r => String (ascii_of_N (48 + d)) r) EmptyString ds.

Definition decimal_digits (ds : list N) : Prop :=
  ds <> [] /\ Forall (fun d => (d < 10)%N) ds.

(** [s] does not begin with a decimal digit. *)
Definition no_digit_ahead (s : string) : Prop :=
  match s with
  | EmptyString => True
  | String c _ => JSString.radix_digit 10 c = None
  end.

(** [s] does not begin with [x] or [X]. *)
Definition no_x_ahead (s : string) : Prop :=
  match s with
  | EmptyString => True
  | String c _ => c <> "x"%char /\ c <> "X"%char
  end.

(** [s] is empty or begins with a character that is neither white space
    nor a sign nor a decimal digit. *)
Definition not_numeric (s : string) : Prop :=
  match s with
  | EmptyString => True
  | String c _ =>
      JSString.is_white_space c = false /\ c <> "-"%char /\ c <> "+"%char /\
      JSString.radix_digit 10 c = None
  end.

(** ** A sample body *)

Definition lamp : ProductBody.t :=
  {| ProductBody.title := Some " Lamp ";
     ProductBody.description := Some "A desk lamp";
     ProductBody.category := Some "home";
     ProductBody.price := JS.Num 25;
     ProductBody.rating := JS.Num (9 # 2);
     ProductBody.stock := JS.Num 3 |}.

Definition empty_shop : Store := {| products := []; cartItems := ∅ |}.

Definition blank_title : ProductBody.t :=
  {| ProductBody.title := Some "   ";
     ProductBody.description := Some "A desk lamp";
     ProductBody.category := Some "home";
     ProductBody.price := JS.Num 25;
     ProductBody.rating := JS.Num 4;
     ProductBody.stock := JS.Num 3 |}.

(** * Registration and login

    [validateRegistration], [validateLogin], [POST /register],
    [POST /login] and [authenticate].  The fields of the bodies are absent
    or strings. *)

(** ** Regular expressions

    The fragment the e-mail pattern of [server.js] is written in:
    character classes, sequence, alternative and iteration.  [test]
    decides whether the whole string matches, as [regex.test(s)] does for
    a pattern between [^] and [$]. *)

Module RegExp.

Inductive t : Type :=
| Never
| Empty
| Class (p : ascii -> bool)
| Seq (r1 r2 : t)
| Alt (r1 r2 : t)
| Star (r : t).

(** [r+], [r?] *)
Definition Plus (r : t) : t := Seq r (Star r).
Definition Opt (r : t) : t := Alt Empty r.

Fixpoint nullable (r : t) : bool :=
  match r with
  | Never => false
  | Empty => true
  | Class _ => false
  | Seq r1 r2 => nullable r1 && nullable r2
  | Alt r1 r2 => nullable r1 || nullable r2
  | Star _ => true
  end.

(** What [r] still has to match once [c] is read. *)
Fixpoint after (c : ascii) (r : t) : t :=
  match r with
  | Never | Empty => Never
  | Class p => if p c then Empty else Never
  | Seq r1 r2 =>
      if nullable r1 then Alt (Seq (after c r1) r2) (after c r2)
      else Seq (after c r1) r2
  | Alt r1 r2 => Alt (after c r1) (after c r2)
  | Star r1 => Seq (after c r1) (Star r1)
  end.

Fixpoint test (r : t) (s : string) : bool :=
  match s with
  | EmptyString => nullable r
  | String c s' => test (after c r) s'
  end.

(** The strings of the language of [r], as lists of characters. *)
Inductive Matches : t -> list ascii -> Prop :=
| MEmpty : Matches Empty []
| MClass p c : p c = true -> Matches (Class p) [c]
| MSeq r1 r2 s1 s2 :
    Matches r1 s1 -> Matches r2 s2 -> Matches (Seq r1 r2) (s1 ++ s2)
| MAltL r1 r2 s : Matches r1 s -> Matches (Alt r1 r2) s
| MAltR r1 r2 s : Matches r2 s -> Matches (Alt r1 r2) s
| MStarNil r : Matches (Star r) []
| MStarCons r s1 s2 :
    Matches r s1 -> Matches (Star r) s2 -> Matches (Star r) (s1 ++ s2).

End RegExp.

(** [\w] *)
Definition is_word (c : ascii) : bool :=
  let n := N_of_ascii c in
  ((48 <=? n) && (n <=? 57) || (65 <=? n) && (n <=? 90)
   || (97 <=? n) && (n <=? 122) || (n =? 95))%N.

(** [[.-]] *)
Definition is_dot_or_dash (c : ascii) : bool :=
  (c =? ".")%char || (c =? "-")%char.

(** [\w+([.-]?\w+)*] *)
Definition name_pattern : RegExp.t :=
  RegExp.Seq (RegExp.Plus (RegExp.Class is_word))
    (RegExp.Star
       (RegExp.Seq (RegExp.Opt (RegExp.Class is_dot_or_dash))
          (RegExp.Plus (RegExp.Class is_word)))).

(** [\.\w{2,3}] *)
Definition suffix_pattern : RegExp.t :=
  RegExp.Seq (RegExp.Class (Ascii.eqb "."))
    (RegExp.Seq (RegExp.Class is_word)
       (RegExp.Seq (RegExp.Class is_word) (RegExp.Opt (RegExp.Class is_word)))).

(** [/^\w+([.-]?\w+)*@\w+([.-]?\w+)*(\.\w{2,3})+$/] *)
Definition emailRegex : RegExp.t :=
  RegExp.Seq name_pattern
    (RegExp.Seq (RegExp.Class (Ascii.eqb "@"))
       (RegExp.Seq name_pattern (RegExp.Plus suffix_pattern))).

(** ** Requests and responses *)

(** [req.body] of [POST /register] and [POST /login], for a body whose
    [username], [email] and [password] are strings or absent.  A body
    carrying another JSON value in one of them (a number, an array) is
    outside the model. *)
Module Credentials.
Record t : Type := mk {
  username : option string;
  email : option string;
  password : option string
}.
End Credentials.

(** [{ id, username, email }] *)
Module PublicUser.
Record t : Type := mk {
  id : ObjectId;
  username : string;
  email : string
}.
End PublicUser.

Inductive UserJson : Type :=
| UserError (error : string)
| SessionJson (message : string) (token : string) (user : PublicUser.t).

Record UserResponse : Type := mkUserResponse {
  user_status : N;
  user_json : UserJson
}.

Definition user_error (code : N) (msg : string) : UserResponse :=
  {| user_status := code; user_json := UserError msg |}.

(** ** [validateRegistration] and [validateLogin] *)

(** [!s] on a field that is absent or a string: the empty string is
    falsy. *)
Definition no_string (s : option string) : bool :=
  match s with
  | Some (String _ _) => false
  | _ => true
  end.

(** The string of a field, the empty string standing for a field that
    is absent; it is read only behind [no_string]. *)
Definition string_of (s : option string) : string :=
  match s with
  | Some x => x
  | None => EmptyString
  end.

Inductive Checked : Type :=
| Refused (r : UserResponse)
| Passed.

Definition validateRegistration (body : Credentials.t) : Checked :=
  let username := Credentials.username body in
  let email := Credentials.email body in
  let password := Credentials.password body in
  if no_string username || no_string email || no_string password then
    Refused (user_error 400 "Please provide username, email and password")
  else if (String.length (string_of username) <? 3)%nat then
    Refused (user_error 400 "Username must be at least 3 characters long")
  else if (String.length (string_of password) <? 6)%nat then
    Refused (user_error 400 "Password must be at least 6 characters long")
  else if negb (RegExp.test emailRegex (string_of email)) then
    Refused (user_error 400 "Please provide a valid email address")
  else Passed.

Definition validateLogin (body : Credentials.t) : Checked :=
  let email := Credentials.email body in
  let password := Credentials.password body in
  if no_string email || no_string password then
    Refused (user_error 400 "Please provide email and password")
  else Passed.

(** ** Vocabulary of the registration properties *)

(** Every character of a match is let in by one of the classes. *)
Fixpoint classes_within (P : ascii -> Prop) (r : RegExp.t) : Prop :=
  match r with
  | RegExp.Never | RegExp.Empty => True
  | RegExp.Class p => forall c, p c = true -> P c
  | RegExp.Seq r1 r2 | RegExp.Alt r1 r2 => classes_within P r1 /\ classes_within P r2
  | RegExp.Star r1 => classes_within P r1
  end.

(** A character of a name: a word character, a dot or a dash. *)
Definition name_char (c : ascii) : Prop :=
  is_word c = true \/ is_dot_or_dash c = true.

Definition word_first (s : list ascii) : Prop :=
  match s with
  | [] => False
  | c :: _ => is_word c = true
  end.

(** [local@host.tld]: two names that begin with a word character, and
    after the last dot two or three word characters. *)
Definition email_shape (e : string) : Prop :=
  exists local host tld,
    list_ascii_of_string e = local ++ "@"%char :: host ++ "."%char :: tld /\
    word_first local /\ Forall name_char local /\
    word_first host /\ Forall name_char host /\
    Forall (fun c => is_word c = true) tld /\
    (length tld = 2 \/ length tld = 3)%nat.

(** A non-empty run of word characters. *)
Definition word (s : list ascii) : Prop :=
  s <> [] /\ Forall (fun c => is_word c = true) s.

(** ** A sample registration *)

Definition alice : Credentials.t :=
  {| Credentials.username := Some "alice";
     Credentials.email := Some "alice@example.org";
     Credentials.password := Some "secret1" |}.

(** ** The libraries behind registration and login

    [bcryptjs], [jsonwebtoken] and the query casting of Mongoose are not
    part of [server.js]; the handlers take them as parameters. *)

Record Libraries : Type := mkLibraries {
  (** [bcrypt.hash(password, salt)] *)
  bcrypt_hash : string -> string -> string;
  (** [bcrypt.compare(password, hash)] *)
  bcrypt_compare : string -> string -> bool;
  (** [jwt.sign({ userId }, JWT_SECRET, { expiresIn: '24h' })] at the time
      given, in milliseconds *)
  jwt_sign : ObjectId -> Z -> string;
  (** [jwt.verify(token, JWT_SECRET)] at the time given: the [userId] of
      the payload, or nothing when it throws *)
  jwt_verify : string -> Z -> option ObjectId;
  (** whether Mongoose applies the setters of the schema ([trim]) to the
      filter of a query, as it does from version 5 on *)
  setters_on_queries : bool
}.

(** ** The [User] collection *)

(** [userSchema] *)
Module User.
Record t : Type := mk {
  username : string;
  email : string;
  password : string;
  createdAt : Z
}.
End User.

(** A user document in memory: its [_id] and its fields. *)
Definition UserDoc : Type := ObjectId * User.t.

(** A string of a filter, as the query sees it. *)
Definition query_string (lib : Libraries) (s : string) : string :=
  if setters_on_queries lib then JSString.trim s else s.

(** [User.findOne({ email })] *)
Definition User_findOne_email (lib : Libraries) (email : string)
    (us : gmap positive User.t) : option UserDoc :=
  List.find (fun d : UserDoc => String.eqb (User.email d.2) (query_string lib email))
    (map_to_list us).

(** [User.findOne({ username })] *)
Definition User_findOne_username (lib : Libraries) (username : string)
    (us : gmap positive User.t) : option UserDoc :=
  List.find (fun d : UserDoc => String.eqb (User.username d.2) (query_string lib username))
    (map_to_list us).

(** [new User({ username, email, password })]: the setters trim
    [username] and [email], [createdAt] defaults to the clock, and the
    driver draws an [_id] that no document of the collection carries. *)
Definition User_new (username email password : string) (now : Z)
    (us : gmap positive User.t) : UserDoc :=
  (fresh (dom us),
   {| User.username := JSString.trim username;
      User.email := JSString.trim email;
      User.password := password;
      User.createdAt := now |}).

(** The validators of [userSchema]: [required], [minlength] and
    [match]. *)
Definition User_validate (u : User.t) : bool :=
  negb (no_string (Some (User.username u)))
  && (3 <=? String.length (User.username u))%nat
  && negb (no_string (Some (User.email u)))
  && RegExp.test emailRegex (User.email u)
  && negb (no_string (Some (User.password u)))
  && (6 <=? String.length (User.password u))%nat.

(** The unique indexes on [username] and [email] accept the document. *)
Definition User_unique (u : User.t) (us : gmap positive User.t) : bool :=
  forallb (fun d : UserDoc =>
             negb (String.eqb (User.username d.2) (User.username u))
             && negb (String.eqb (User.email d.2) (User.email u)))
          (map_to_list us).

(** [user.save()] on a new document: the collection with the document
    inserted, or nothing when a validator or a unique index throws. *)
Definition User_save (d : UserDoc) (us : gmap positive User.t)
  : option (gmap positive User.t) :=
  if User_validate d.2 && User_unique d.2 us then Some (<[d.1 := d.2]> us)
  else None.

(** ** [POST /register] and [POST /login] *)

Definition res_session (code : N) (message token : string) (d : UserDoc)
  : UserResponse :=
  {| user_status := code;
     user_json := SessionJson message token
                    {| PublicUser.id := d.1;
                       PublicUser.username := User.username d.2;
                       PublicUser.email := User.email d.2 |} |}.

(** [app.post('/register', validateRegistration, ...)]; [salt] is what
    [bcrypt.genSalt(10)] draws. *)
Definition post_register (lib : Libraries) (body : Credentials.t) (salt : string)
    (now : Z) (us : gmap positive User.t)
  : gmap positive User.t * UserResponse :=
  match validateRegistration body with
  | Refused r => (us, r)
  | Passed =>
      let username := string_of (Credentials.username body) in
      let email := string_of (Credentials.email body) in
      let password := string_of (Credentials.password body) in
      match User_findOne_email lib email us with
      | Some _ => (us, user_error 400 "User already exists with this email")
      | None =>
          match User_findOne_username lib username us with
          | Some _ => (us, user_error 400 "Username is already taken")
          | None =>
              let hashedPassword := bcrypt_hash lib password salt in
              let user := User_new username email hashedPassword now us in
              match User_save user us with
              | None => (us, user_error 500 "Server error")
              | Some us' =>
                  let token := jwt_sign lib user.1 now in
                  (us', res_session 201 "User registered successfully" token user)
              end
          end
      end
  end.

(** [app.post('/login', validateLogin, ...)] *)
Definition post_login (lib : Libraries) (body : Credentials.t) (now : Z)
    (us : gmap positive User.t)
  : gmap positive User.t * UserResponse :=
  match validateLogin body with
  | Refused r => (us, r)
  | Passed =>
      let email := string_of (Credentials.email body) in
      let password := string_of (Credentials.password body) in
      match User_findOne_email lib email us with
      | None => (us, user_error 400 "Invalid credentials")
      | Some user =>
          let isMatch := bcrypt_compare lib password (User.password user.2) in
          if negb isMatch then (us, user_error 400 "Invalid credentials")
          else
            let token := jwt_sign lib user.1 now in
            (us, res_session 200 "Login successful" token user)
      end
  end.

(** ** [authenticate] *)

(** What is left of [s] behind the prefix [pat], if [s] begins with
    [pat]. *)
Fixpoint behind (pat s : string) : option string :=
  match pat, s with
  | EmptyString, _ => Some s
  | String a pat', String b s' =>
      if (a =? b)%char then behind pat' s' else None
  | String _ _, EmptyString => None
  end.

(** [s.replace(pat, '')]: the first occurrence of [pat] is removed. *)
Fixpoint remove_first (pat s : string) : string :=
  match behind pat s with
  | Some rest => rest
  | None =>
      match s with
      | EmptyString => EmptyString
      | String c s' => String c (remove_first pat s')
      end
  end.

(** [req.user]: the document [User.findById(...).select('-password')]
    returns. *)
Module ReqUser.
Record t : Type := mk {
  _id : ObjectId;
  username : string;
  email : string;
  createdAt : Z
}.
End ReqUser.

(** The [authenticate] middleware over the [Authorization] header: the
    answer it sends, or the user it leaves in [req.user]. *)
Definition authenticate (lib : Libraries) (authorization : option string) (now : Z)
    (us : gmap positive User.t) : Response + ReqUser.t :=
  let token := remove_first "Bearer " <$> authorization in
  if no_string token then
    inl (res_error 401 "No token, authorization denied")
  else
    match jwt_verify lib (string_of token) now with
    | None => inl (res_error 401 "Token is invalid")
    | Some userId =>
        match us !! userId with
        | None => inl (res_error 401 "User not found")
        | Some user =>
            inr {| ReqUser._id := userId;
                   ReqUser.username := User.username user;
                   ReqUser.email := User.email user;
                   ReqUser.createdAt := User.createdAt user |}
        end
    end.

(** The whole database: the users beside the products and the carts. *)
Record Database : Type := mkDatabase {
  users : gmap positive User.t;
  store : Store
}.

(** A cart route behind [authenticate]. *)
Definition authenticated (lib : Libraries) (authorization : option string) (now : Z)
    (route : ObjectId -> Store -> Store * Response)
  : Database -> Database * Response :=
  fun db =>
    match authenticate lib authorization now (users db) with
    | inl r => (db, r)
    | inr req_user =>
        let '(s', r) := route (ReqUser._id req_user) (store db) in
        ({| users := users db; store := s' |}, r)
    end.

(** ** Stand-ins for the libraries

    A hash that keeps the password readable and a token that counts the
    user id in unary: enough to run the handlers. *)

Definition stand_in : Libraries :=
  {| bcrypt_hash := fun password _ => "bcrypt:" +:+ password;
     bcrypt_compare := fun password hash => String.eqb hash ("bcrypt:" +:+ password);
     jwt_sign := fun userId _ =>
       string_of_list_ascii (repeat "u"%char (Pos.to_nat userId));
     jwt_verify := fun token _ =>
       match String.length token with
       | O => None
       | n => Some (Pos.of_nat n)
       end;
     setters_on_queries := true |}.

(** How many times [c] leads [s], and what follows. *)
Fixpoint leading (c : ascii) (s : string) : nat * string :=
  match s with
  | String a s' =>
      if (a =? c)%char then let (n, rest) := leading c s' in (S n, rest)
      else (O, s)
  | EmptyString => (O, s)
  end.

(** A stand-in with a clock: the token counts in unary the user id and,
    behind a dot, the second it was signed in; it is refused from 86400
    seconds later on. *)
Definition ticking : Libraries :=
  {| bcrypt_hash := bcrypt_hash stand_in;
     bcrypt_compare := bcrypt_compare stand_in;
     jwt_sign := fun userId t =>
       string_of_list_ascii (repeat "u"%char (Pos.to_nat userId))
       +:+ String "."%char
             (string_of_list_ascii (repeat "i"%char (Z.to_nat (t / 1000))));
     jwt_verify := fun token t' =>
       match leading "u"%char token with
       | (S n, String c stamp) =>
           if (c =? ".")%char
              && (t' / 1000 <? Z.of_nat (String.length stamp) + 86400)%Z
           then Some (Pos.of_nat (S n)) else None
       | _ => None
       end;
     setters_on_queries := true |}.

(** ** Vocabulary of the properties of the user routes *)

(** What [POST /register] relies on from [bcryptjs]: a hash has 6
    characters or more (it has 60), so that the schema accepts it as a
    password. *)
Definition hashes_long (lib : Libraries) : Prop :=
  forall password salt, (6 <= String.length (bcrypt_hash lib password salt))%nat.

(** What [POST /login] relies on from [bcryptjs]: [compare] accepts the
    password a hash was made from. *)
Definition compare_accepts (lib : Libraries) : Prop :=
  forall password salt,
    bcrypt_compare lib password (bcrypt_hash lib password salt) = true.

(** What [authenticate] relies on from [jsonwebtoken], whose clock counts
    whole seconds: a token is not empty, and a token signed in the second
    [t / 1000] of the epoch verifies to the user it was signed for as long
    as the clock has not reached the second [t / 1000 + 86400]. *)
Definition tokens_verify (lib : Libraries) : Prop :=
  (forall userId t, jwt_sign lib userId t <> EmptyString) /\
  (forall userId t t', (0 <= t)%Z -> (t' / 1000 < t / 1000 + 86400)%Z ->
     jwt_verify lib (jwt_sign lib userId t) t' = Some userId).

(** No two users share an e-mail address or a username. *)
Definition users_distinct (us : gmap positive User.t) : Prop :=
  forall i j u v, us !! i = Some u -> us !! j = Some v ->
    User.email u = User.email v \/ User.username u = User.username v -> i = j.

(** A user as the validators of the schema leave it. *)
Definition user_ok (u : User.t) : Prop :=
  JSString.trim (User.username u) = User.username u /\
  (3 <= String.length (User.username u))%nat /\
  email_shape (User.email u) /\
  (6 <= String.length (User.password u))%nat.

(** The user [POST /register] stores for the username [u], the address
    [e] and the password [p]. *)
Definition registered_user (lib : Libraries) (u e p salt : string) (now : Z)
  : User.t :=
  {| User.username := JSString.trim u; User.email := e;
     User.password := bcrypt_hash lib p salt; User.createdAt := now |}.

Definition users_valid (us : gmap positive User.t) : Prop :=
  forall i u, us !! i = Some u -> user_ok u.

(** [pat] occurs in [s]. *)
Definition occurs (pat s : string) : Prop :=
  exists pre post, s = pre +:+ pat +:+ post.

(** The users after [alice] has registered. *)
Definition alice_registered : gmap positive User.t :=
  (post_register stand_in alice "salt" 10 ∅).1.

(** * Properties *)

Local Open Scope Q_scope.

(** ** The JavaScript operators on numbers *)

Lemma lt_Num x y : JS.lt (JS.Num x) (JS.Num y) = true <-> x < y.
Proof.
  unfold JS.lt. rewrite negb_true_iff. split.
  - intros H. apply Qnot_le_lt. intros Hle. apply Qle_bool_iff in Hle. congruence.
  - intros H. destruct (Qle_bool y x) eqn:E; [|done].
    apply Qle_bool_iff in E. lra.
Qed.

Lemma lt_Num_false x y : JS.lt (JS.Num x) (JS.Num y) = false <-> y <= x.
Proof. unfold JS.lt. rewrite negb_false_iff. apply Qle_bool_iff. Qed.

Lemma not_Num q : JS.not (JS.Num q) = false <-> ~ q == 0.
Proof.
  unfold JS.not. split.
  - intros H Heq. apply Qeq_bool_iff in Heq. congruence.
  - intros H. destruct (Qeq_bool q 0) eqn:E; [|done].
    apply Qeq_bool_iff in E. contradiction.
Qed.

Lemma not_Num_ge1 q : 1 <= q -> JS.not (JS.Num q) = false.
Proof. intros H. apply not_Num. lra. Qed.

Lemma Number_isInteger_parseInt q :
  JS.Number_isInteger (JS.parseInt (JS.Num q)) = true.
Proof.
  unfold JS.Number_isInteger, JS.parseInt, JS.trunc, JS.is_integer.
  by rewrite inject_Z_Qred.
Qed.

Lemma Qle_bool_true x y : x <= y -> Qle_bool x y = true.
Proof. apply Qle_bool_iff. Qed.

(** ** Integer-valued numbers *)

Lemma is_integer_iff q : JS.is_integer q = true <-> exists z, q == inject_Z z.
Proof.
  unfold JS.is_integer. rewrite Z.eqb_eq. split.
  - intros Hden. exists (Qnum (Qred q)).
    rewrite <- (Qred_correct q) at 1.
    destruct (Qred q) as [n d]. cbn [Qden Qnum] in *.
    injection Hden as ->. reflexivity.
  - intros [z Hz]. apply Qred_complete in Hz.
    by rewrite Hz, inject_Z_Qred.
Qed.

Lemma is_integer_plus a b :
  JS.is_integer a = true -> JS.is_integer b = true ->
  JS.is_integer (a + b) = true.
Proof.
  rewrite !is_integer_iff. intros [x Hx] [y Hy]. exists (x + y)%Z.
  by rewrite inject_Z_plus, Hx, Hy.
Qed.

(** ** Sums of doubles *)

Lemma pow2_pos k : 0 < 2 ^ k.
Proof. apply Qpower_0_lt. reflexivity. Qed.

Lemma pow2_plus a b : 2 ^ (a + b) == 2 ^ a * 2 ^ b.
Proof. apply Qpower_plus. discriminate. Qed.

Lemma pow2_le a b : (a <= b)%Z -> 2 ^ a <= 2 ^ b.
Proof. intros H. apply Qpower_le_compat_l; [exact H | discriminate]. Qed.

Lemma pow2_le_inv a b : 2 ^ a <= 2 ^ b -> (a <= b)%Z.
Proof. intros H. apply (Qpower_le_compat_l_inv 2); [exact H | reflexivity]. Qed.

Lemma pow2_inject k : (0 <= k)%Z -> inject_Z (2 ^ k) == 2 ^ k.
Proof. intros H. rewrite Zpower_Qpower by exact H. reflexivity. Qed.

Lemma pow2_cancel u : 2 ^ (- u) * 2 ^ u == 1.
Proof. rewrite <- pow2_plus. replace (- u + u)%Z with 0%Z by lia. reflexivity. Qed.

Lemma Q_as_fraction x : x == inject_Z (Qnum x) / inject_Z (Zpos (Qden x)).
Proof. destruct x as [n d]. cbn [Qnum Qden]. rewrite <- Qmake_Qdiv. reflexivity. Qed.

(** [x] lies within a factor 2 of the power of 2 that the lengths of its
    numerator and denominator give. *)
Lemma log2_bounds x :
  0 < x ->
  let e := (Z.log2 (Qnum x) - Z.log2 (Zpos (Qden x)))%Z in
  2 ^ (e - 1) <= x /\ x < 2 ^ (e + 1).
Proof.
  intros Hx e.
  assert (Hn : (0 < Qnum x)%Z).
  { destruct x as [n d]. unfold Qlt in Hx. cbn in Hx |- *. lia. }
  destruct (Z.log2_spec _ Hn) as [Hn1 Hn2].
  destruct (Z.log2_spec (Zpos (Qden x)) ltac:(lia)) as [Hd1 Hd2].
  pose proof (Z.log2_nonneg (Qnum x)) as Ha.
  pose proof (Z.log2_nonneg (Zpos (Qden x))) as Hb.
  set (a := Z.log2 (Qnum x)) in *. set (b := Z.log2 (Zpos (Qden x))) in *.
  assert (Hn1q : 2 ^ a <= inject_Z (Qnum x)).
  { rewrite <- pow2_inject by lia. rewrite <- Zle_Qle. exact Hn1. }
  assert (Hn2q : inject_Z (Qnum x) < 2 ^ (a + 1)).
  { rewrite <- pow2_inject by lia. rewrite <- Zlt_Qlt. exact Hn2. }
  assert (Hd1q : 2 ^ b <= inject_Z (Zpos (Qden x))).
  { rewrite <- pow2_inject by lia. rewrite <- Zle_Qle. exact Hd1. }
  assert (Hd2q : inject_Z (Zpos (Qden x)) < 2 ^ (b + 1)).
  { rewrite <- pow2_inject by lia. rewrite <- Zlt_Qlt. exact Hd2. }
  assert (Hdpos : 0 < inject_Z (Zpos (Qden x))) by reflexivity.
  rewrite (Q_as_fraction x) at 1 2.
  split.
  - apply Qle_shift_div_l; [exact Hdpos |].
    apply Qle_trans with (2 ^ (e - 1) * 2 ^ (b + 1)).
    + apply Qmult_le_l; [apply pow2_pos | apply Qlt_le_weak; exact Hd2q].
    + rewrite <- pow2_plus. replace (e - 1 + (b + 1))%Z with a by (unfold e; lia).
      exact Hn1q.
  - apply Qlt_shift_div_r; [exact Hdpos |].
    apply Qlt_le_trans with (2 ^ (a + 1)); [exact Hn2q |].
    replace (a + 1)%Z with (e + 1 + b)%Z by (unfold e; lia).
    rewrite pow2_plus. apply Qmult_le_l; [apply pow2_pos | exact Hd1q].
Qed.

Lemma binade_spec x : 0 < x -> 2 ^ JS.binade x <= x /\ x < 2 ^ (JS.binade x + 1).
Proof.
  intros Hx. destruct (log2_bounds x Hx) as [Hlo Hhi].
  unfold JS.binade.
  set (e := (Z.log2 (Qnum x) - Z.log2 (Zpos (Qden x)))%Z) in *.
  destruct (Qle_bool (2 ^ e) x) eqn:He.
  - split; [apply Qle_bool_iff; exact He | exact Hhi].
  - split; [exact Hlo |].
    replace (e - 1 + 1)%Z with e by lia.
    apply Qnot_le_lt. intros H. apply Qle_bool_iff in H. congruence.
Qed.

Lemma nearest_even_floor y : (Qfloor y <= JS.nearest_even y)%Z.
Proof.
  unfold JS.nearest_even.
  destruct (Qcompare _ _); [destruct (Z.even _) | |]; lia.
Qed.

Lemma nearest_even_Z y k : y == inject_Z k -> JS.nearest_even y = k.
Proof.
  intros H. unfold JS.nearest_even.
  assert (Hf : Qfloor y = k) by (rewrite H; apply Qfloor_Z).
  rewrite Hf.
  assert (Hlt : y - inject_Z k < 1 # 2) by (rewrite H; unfold Qminus; rewrite Qplus_opp_r; reflexivity).
  destruct (Qcompare_spec (y - inject_Z k) (1 # 2)) as [E | E | E];
    [lra | reflexivity | lra].
Qed.

Lemma nearest_even_ge y k : inject_Z k <= y -> (k <= JS.nearest_even y)%Z.
Proof.
  intros H. pose proof (nearest_even_floor y).
  apply Qfloor_resp_le in H. rewrite Qfloor_Z in H. lia.
Qed.

Lemma round_pos_ge_1 x : 1 <= x -> 1 <= JS.round_pos x.
Proof.
  intros Hx.
  assert (Hpos : 0 < x) by lra.
  destruct (binade_spec x Hpos) as [Hlo _].
  unfold JS.round_pos.
  set (u := Z.max (JS.binade x - 52) (-1074)).
  assert (Hr : 1 <= inject_Z (JS.nearest_even (x / 2 ^ u)) * 2 ^ u).
  { destruct (Z_le_gt_dec u 0) as [Hu | Hu].
    - assert (Hk : (2 ^ (- u) <= JS.nearest_even (x / 2 ^ u))%Z).
      { apply nearest_even_ge. rewrite pow2_inject by lia.
        apply Qle_shift_div_l; [apply pow2_pos |].
        rewrite pow2_cancel. exact Hx. }
      rewrite <- (pow2_cancel u).
      apply Qmult_le_compat_r; [| apply Qlt_le_weak, pow2_pos].
      rewrite <- pow2_inject by lia. rewrite <- Zle_Qle. exact Hk.
    - assert (Hk : (1 <= JS.nearest_even (x / 2 ^ u))%Z).
      { apply nearest_even_ge.
        apply Qle_shift_div_l; [apply pow2_pos |].
        rewrite Qmult_1_l.
        apply Qle_trans with (2 ^ JS.binade x); [apply pow2_le; lia | exact Hlo]. }
      apply Qle_trans with (1 * 2 ^ u).
      + rewrite Qmult_1_l. apply (pow2_le 0 u). lia.
      + apply Qmult_le_compat_r; [| apply Qlt_le_weak, pow2_pos].
        rewrite Zle_Qle in Hk. exact Hk. }
  destruct (Qle_bool JS.infinity _); [| exact Hr].
  unfold JS.infinity. apply (pow2_le 0 1024). lia.
Qed.

Lemma round_ge_1 x : 1 <= x -> 1 <= JS.round x.
Proof.
  intros Hx. unfold JS.round.
  destruct (Qnum x) eqn:Hn.
  - exact Hx.
  - apply round_pos_ge_1. exact Hx.
  - exfalso. destruct x as [n d]. unfold Qle in Hx. cbn in Hx, Hn. subst n. lia.
Qed.

(** Integers up to 2^53 are doubles. *)
Lemma round_pos_integer x z :
  x == inject_Z z -> (1 <= z <= 2 ^ 53)%Z -> JS.round_pos x == x.
Proof.
  intros Hxz Hz.
  assert (H1 : 1 <= x) by (rewrite Hxz; rewrite <- (Zle_Qle 1); lia).
  assert (H53 : x <= 2 ^ 53).
  { rewrite Hxz. rewrite <- pow2_inject by lia. rewrite <- Zle_Qle. lia. }
  destruct (binade_spec x ltac:(lra)) as [Hlo Hhi].
  assert (He0 : (0 <= JS.binade x)%Z).
  { assert (H : (0 + 1 <= JS.binade x + 1)%Z); [| lia].
    apply Z.lt_succ_r. apply Z.nle_gt. intros Hc.
    assert (2 ^ (JS.binade x + 1) <= 2 ^ 0) by (apply pow2_le; lia).
    change (2 ^ 0) with 1 in *. lra. }
  assert (He53 : (JS.binade x <= 53)%Z).
  { apply pow2_le_inv. lra. }
  unfold JS.round_pos.
  replace (Z.max (JS.binade x - 52) (-1074)) with (JS.binade x - 52)%Z by lia.
  set (u := (JS.binade x - 52)%Z) in *.
  assert (Hk : exists k, x / 2 ^ u == inject_Z k).
  { destruct (Z_le_gt_dec u 0) as [Hu | Hu].
    - exists (z * 2 ^ (- u))%Z.
      rewrite inject_Z_mult, pow2_inject by lia. rewrite <- Hxz.
      unfold Qdiv. rewrite Qpower_opp. reflexivity.
    - exists (2 ^ 52)%Z.
      assert (Hb : JS.binade x = 53%Z) by lia.
      replace u with 1%Z by lia. rewrite Hb in Hlo.
      assert (Hx : x == 2 ^ 53) by lra.
      rewrite Hx. reflexivity. }
  destruct Hk as [k Hk].
  rewrite (nearest_even_Z _ _ Hk).
  assert (Hr : inject_Z k * 2 ^ u == x).
  { rewrite <- Hk. rewrite Qmult_comm. apply Qmult_div_r.
    intros H0. pose proof (pow2_pos u) as Hp. rewrite H0 in Hp. discriminate. }
  destruct (Qle_bool JS.infinity _) eqn:Hinf; [| exact Hr].
  apply Qle_bool_iff in Hinf. rewrite Hr in Hinf.
  assert (2 ^ 53 < JS.infinity) by reflexivity. lra.
Qed.

Lemma round_integer x z :
  x == inject_Z z -> (1 <= z <= 2 ^ 53)%Z -> JS.round x == x.
Proof.
  intros Hxz Hz. unfold JS.round.
  destruct (Qnum x) eqn:Hn.
  - reflexivity.
  - apply (round_pos_integer x z Hxz Hz).
  - exfalso. destruct x as [n d]. unfold Qeq in Hxz. cbn in Hxz, Hn. subst n. lia.
Qed.

Lemma is_infinite_false x : - 2 ^ 53 <= x -> x <= 2 ^ 53 -> JS.is_infinite x = false.
Proof.
  intros Hlo Hhi. unfold JS.is_infinite.
  destruct (Qle_bool JS.infinity (Qabs x)) eqn:E; [|done].
  apply Qle_bool_iff in E.
  assert (Habs : Qabs x <= 2 ^ 53) by (by apply Qabs_Qle_condition).
  assert (2 ^ 53 < JS.infinity) by reflexivity. lra.
Qed.

(** The sum of two quantities is a number, not below 1. *)
Lemma add_quantities x y :
  1 <= x -> 1 <= y ->
  exists z, JS.add (JS.Num x) (JS.Num y) = JS.Num z /\ 1 <= z.
Proof.
  intros Hx Hy. unfold JS.add.
  rewrite (Qle_bool_true 0 x), (Qle_bool_true 0 y) by lra.
  cbn [Bool.eqb negb]. rewrite andb_false_r.
  destruct (JS.is_infinite x); [by exists x|].
  destruct (JS.is_infinite y); [by exists y|].
  exists (JS.round (x + y)). split; [done|]. apply round_ge_1. lra.
Qed.

(** Integer quantities whose sum does not exceed [2 ^ 53] add exactly. *)
Lemma add_integers x y :
  JS.is_integer x = true -> JS.is_integer y = true ->
  1 <= x -> 1 <= y -> x + y <= 2 ^ 53 ->
  exists z, JS.add (JS.Num x) (JS.Num y) = JS.Num z /\ z == x + y.
Proof.
  intros Hix Hiy Hx Hy Hsum. unfold JS.add.
  assert (H53 : 0 < 2 ^ 53) by reflexivity.
  rewrite !is_infinite_false by lra.
  exists (JS.round (x + y)). split; [done|].
  destruct (proj1 (is_integer_iff _) (is_integer_plus _ _ Hix Hiy)) as [z Hz].
  apply (round_integer _ z Hz).
  assert (Hz1 : 1 <= inject_Z z) by (rewrite <- Hz; lra).
  change 1 with (inject_Z 1) in Hz1. rewrite <- Zle_Qle in Hz1.
  assert (Hz2 : inject_Z z <= inject_Z (2 ^ 53))
    by (rewrite pow2_inject by lia; rewrite <- Hz; exact Hsum).
  rewrite <- Zle_Qle in Hz2. lia.
Qed.

(** ** Reading the collections *)

Lemma entry_for_spec u p (d : Doc) :
  Pos.eqb (CartItem.user d.2) u && Qeq_bool (CartItem.product d.2) p = true
  <-> entry_for u p d.2.
Proof.
  unfold entry_for. rewrite andb_true_iff, Pos.eqb_eq, Qeq_bool_iff. tauto.
Qed.

Lemma CartItem_findOne_state u p s : (CartItem_findOne u p s).1 = s.
Proof. reflexivity. Qed.

Lemma CartItem_findOne_None u p s :
  CartItem_findOne u p s = (s, Ok None) <->
  (forall i it, cartItems s !! i = Some it -> ~ entry_for u p it).
Proof.
  unfold CartItem_findOne. split.
  - intros H i it Hi Hent. injection H as H.
    eapply find_none in H; [|apply list_elem_of_In, elem_of_map_to_list, Hi].
    apply (entry_for_spec u p (i, it)) in Hent. simpl in *. congruence.
  - intros H. f_equal. f_equal.
    destruct (find _ _) as [[i it]|] eqn:E; [|done].
    apply find_some in E as [Hin Hp].
    apply list_elem_of_In, elem_of_map_to_list in Hin.
    apply (entry_for_spec u p (i, it)) in Hp. by destruct (H i it).
Qed.

Lemma CartItem_findOne_Some u p s i it :
  CartItem_findOne u p s = (s, Ok (Some (i, it))) ->
  cartItems s !! i = Some it /\ entry_for u p it.
Proof.
  unfold CartItem_findOne. intros H. injection H as H.
  apply find_some in H as [Hin Hp].
  apply list_elem_of_In, elem_of_map_to_list in Hin.
  by apply (entry_for_spec u p (i, it)) in Hp.
Qed.

(** When a single document matches, [findOne] returns it. *)
Lemma CartItem_findOne_unique u p s i it :
  cartItems s !! i = Some it -> entry_for u p it ->
  (forall j it', cartItems s !! j = Some it' -> entry_for u p it' -> j = i) ->
  CartItem_findOne u p s = (s, Ok (Some (i, it))).
Proof.
  intros Hi Hent Huniq.
  destruct (CartItem_findOne u p s) as [s' [[[j it']|]|e]] eqn:E;
    pose proof (CartItem_findOne_state u p s) as Hs; rewrite E in Hs;
    simpl in Hs; subst s'.
  - apply CartItem_findOne_Some in E as [Hj Hent'].
    pose proof (Huniq _ _ Hj Hent'); subst j.
    rewrite Hi in Hj. by injection Hj as ->.
  - exfalso. eapply CartItem_findOne_None in E; eauto.
  - discriminate E.
Qed.

(** ** [validateCartItem] on a well-formed body *)

Lemma validateCartItem_Num s pid q :
  ~ pid == 0 -> 1 <= q ->
  validateCartItem {| Body.productId := JS.Num pid; Body.quantity := JS.Num q |} s
  = (s, match product_with_id s (JS.trunc pid) with
        | None => Responded (res_error 404 "Product not found")
        | Some product =>
            if JS.lt (JS.Num (Product.stock product)) (JS.Num q)
            then Responded (res_error 400 not_enough_stock)
            else Next product
        end).
Proof.
  intros Hpid Hq. unfold validateCartItem. cbn [Body.productId Body.quantity].
  rewrite (proj2 (not_Num pid) Hpid), (not_Num_ge1 q Hq).
  rewrite Number_isInteger_parseInt.
  rewrite (proj2 (lt_Num_false q 1) Hq). cbn [orb negb].
  unfold JS.parseInt, castNumber, bind, ret, Product_findOne.
  by destruct (product_with_id s (JS.trunc pid)) as [p|];
    [destruct (JS.lt _ _)|].
Qed.

(** ** [POST /cart] behind the validation *)

Section AddItem.
Variables (s : Store) (u : ObjectId) (pid q : Q) (now : Z) (p : Product.t).
Hypothesis Hpid : ~ pid == 0.
Hypothesis Hq : 1 <= q.
Hypothesis Hp : product_with_id s (JS.trunc pid) = Some p.
Hypothesis Hstock : q <= Product.stock p.

Lemma AddItem_create :
  CartItem_findOne u pid s = (s, Ok None) ->
  let d := (fresh (dom (cartItems s)), CartItem.mk u pid q now) in
  AddItem s u pid q now
  = (with_cartItems s (<[d.1 := d.2]> (cartItems s)),
     res_added d (product_with_id s pid)).
Proof.
  intros Hnone d. unfold AddItem, post_cart.
  rewrite validateCartItem_Num, Hp by done.
  rewrite (proj2 (lt_Num_false _ _) Hstock).
  cbn [Body.productId Body.quantity].
  unfold try_catch, bind, castNumber, ret. rewrite Hnone.
  unfold CartItem_new, CartItem_save. cbn [fst snd CartItem.quantity].
  by rewrite (Qle_bool_true _ _ Hq).
Qed.

Lemma AddItem_accumulate i it :
  CartItem_findOne u pid s = (s, Ok (Some (i, it))) ->
  1 <= CartItem.quantity it ->
  exists sum,
    JS.add (JS.Num (CartItem.quantity it)) (JS.Num q) = JS.Num sum /\
    AddItem s u pid q now
    = (with_cartItems s (<[i := CartItem.set_quantity sum it]> (cartItems s)),
       res_added (i, CartItem.set_quantity sum it) (product_with_id s pid)).
Proof.
  intros Hsome Hold.
  destruct (add_quantities _ _ Hold Hq) as (sum & Hadd & Hsum).
  exists sum. split; [done|].
  unfold AddItem, post_cart.
  rewrite validateCartItem_Num, Hp by done.
  rewrite (proj2 (lt_Num_false _ _) Hstock).
  cbn [Body.productId Body.quantity].
  unfold try_catch, bind, castNumber, ret. rewrite Hsome.
  cbn [fst snd]. rewrite Hadd.
  unfold CartItem_save.
  cbn [fst snd CartItem.quantity CartItem.set_quantity].
  by rewrite (Qle_bool_true _ _ Hsum).
Qed.
End AddItem.

(** ** [PUT /cart/:id] and [DELETE /cart/:id] as case tables *)

Lemma UpdateItem_valid s u i q :
  1 <= q ->
  UpdateItem s u i q =
  match cartItems s !! i with
  | None => (s, res_error 404 "Cart item not found")
  | Some it =>
      if negb (Pos.eqb (CartItem.user it) u) then
        (s, res_error 403 "Not authorized to update this cart item")
      else
        match product_with_id s (CartItem.product it) with
        | None => (s, server_error TypeError)
        | Some p =>
            if JS.lt (JS.Num (Product.stock p)) (JS.Num q) then
              (s, res_error 400 not_enough_stock)
            else
              let d := (i, CartItem.set_quantity q it) in
              (with_cartItems s (<[i := d.2]> (cartItems s)),
               res_updated d (Some p))
        end
  end.
Proof.
  intros Hq. unfold UpdateItem, put_cart. cbn [Body.quantity].
  rewrite (not_Num_ge1 q Hq), (proj2 (lt_Num_false q 1) Hq). cbn [orb].
  unfold try_catch, bind, ret, throw, CartItem_findById, Product_findOne.
  destruct (cartItems s !! i) as [it|]; cbn [fmap option_fmap option_map fst snd]; [|done].
  destruct (negb _); [done|].
  destruct (product_with_id s (CartItem.product it)) as [p|]; [|done].
  destruct (JS.lt _ _); [done|].
  unfold castNumber, ret, CartItem_save.
  cbn [fst snd CartItem.quantity CartItem.set_quantity].
  by rewrite (Qle_bool_true _ _ Hq).
Qed.

Lemma UpdateItem_invalid s u i q :
  q < 1 ->
  UpdateItem s u i q = (s, res_error 400 "Quantity must be at least 1").
Proof.
  intros Hq. unfold UpdateItem, put_cart. cbn [Body.quantity].
  rewrite (proj2 (lt_Num q 1) Hq). by rewrite orb_true_r.
Qed.

Lemma RemoveItem_cases s u i :
  RemoveItem s u i =
  match cartItems s !! i with
  | None => (s, res_error 404 "Cart item not found")
  | Some it =>
      if negb (Pos.eqb (CartItem.user it) u) then
        (s, res_error 403 "Not authorized to delete this cart item")
      else (with_cartItems s (delete i (cartItems s)), res_removed)
  end.
Proof.
  unfold RemoveItem, delete_cart, try_catch, bind, ret, CartItem_findById.
  destruct (cartItems s !! i) as [it|]; cbn [fmap option_fmap option_map fst snd]; [|done].
  by destruct (negb _).
Qed.

(** ** What a request can do to the store *)

Lemma mapM_read {A B} (f : A -> M B) (g : Store -> A -> B) :
  (forall a s, f a s = (s, Ok (g s a))) ->
  forall l s, mapM f l s = (s, Ok (List.map (g s) l)).
Proof.
  intros Hf l s. induction l as [|a l IH]; [done|].
  cbn [mapM List.map]. unfold bind. by rewrite Hf, IH.
Qed.

Lemma get_cart_eq u s :
  get_cart u s =
  (s, {| status := 200;
         json := CartJson
                   (List.map
                      (fun d : Doc =>
                         populate d (product_with_id s (CartItem.product d.2)))
                      (List.filter
                         (fun d : Doc => Pos.eqb (CartItem.user d.2) u)
                         (map_to_list (cartItems s)))) |}).
Proof.
  unfold get_cart, try_catch, bind, CartItem_find.
  by rewrite (mapM_read _
    (fun s (d : Doc) => populate d (product_with_id s (CartItem.product d.2)))).
Qed.

Lemma handle_effect r s : effect r s (handle r s).1.
Proof.
  destruct r as [u|u body now|u i body|u i]; cbn [handle].
  - rewrite get_cart_eq. constructor.
  - unfold post_cart, validateCartItem.
    destruct body as [pid qty]. cbn [Body.productId Body.quantity].
    destruct (JS.not pid || JS.not qty); [constructor|].
    destruct (negb _); [constructor|].
    destruct (JS.lt qty (JS.Num 1)); [constructor|].
    destruct pid as [| |pid]; cbn [JS.parseInt castNumber];
      unfold bind, throw, ret; try constructor.
    unfold Product_findOne.
    destruct (product_with_id s (JS.trunc pid)) as [p|]; [|constructor].
    destruct (JS.lt _ qty); [constructor|].
    unfold try_catch, bind, castNumber, ret, CartItem_findOne.
    destruct (find _ _) as [[j old]|] eqn:Hfind.
    + cbn [fst snd].
      destruct (JS.add _ qty) as [| |sum]; unfold throw; try constructor.
      unfold CartItem_save. cbn [fst snd CartItem.quantity CartItem.set_quantity].
      destruct (Qle_bool 1 _) eqn:Hle; [|constructor].
      cbn [fst]. apply effect_save. by apply Qle_bool_iff.
    + destruct qty as [| |q]; unfold throw; try constructor.
      unfold CartItem_new, CartItem_save. cbn [fst snd CartItem.quantity].
      destruct (Qle_bool 1 q) eqn:Hle; [|constructor].
      cbn [fst]. apply effect_save. by apply Qle_bool_iff.
  - unfold put_cart. destruct body as [pid qty]. cbn [Body.quantity].
    destruct (JS.not qty || JS.lt qty (JS.Num 1)); [constructor|].
    unfold try_catch, bind, ret, throw, CartItem_findById, Product_findOne.
    destruct (cartItems s !! i) as [it|];
      cbn [fmap option_fmap option_map fst snd]; [|constructor].
    destruct (negb _); [constructor|].
    destruct (product_with_id s (CartItem.product it)) as [p|]; [|constructor].
    destruct (JS.lt _ qty); [constructor|].
    destruct qty as [| |q]; unfold castNumber, throw, ret; try constructor.
    unfold CartItem_save. cbn [fst snd CartItem.quantity CartItem.set_quantity].
    destruct (Qle_bool 1 q) eqn:Hle; [|constructor].
    cbn [fst]. apply effect_save. by apply Qle_bool_iff.
  - unfold handle. change (delete_cart u i s) with (RemoveItem s u i).
    rewrite RemoveItem_cases.
    destruct (cartItems s !! i) as [it|]; [|constructor].
    destruct (negb _); constructor.
Qed.

Lemma handle_products r s : products (handle r s).1 = products s.
Proof. by destruct (handle_effect r s). Qed.

(** ** One request at a time *)

Lemma handle_quantities_valid r s :
  quantities_valid s -> quantities_valid (handle r s).1.
Proof.
  intros Hs. destruct (handle_effect r s) as [|i it Hq|i]; [done| |];
    intros j it' Hj; cbn [cartItems with_cartItems] in Hj.
  - destruct (decide (i = j)) as [->|Hne].
    + rewrite lookup_insert_eq in Hj. by injection Hj as <-.
    + rewrite lookup_insert_ne in Hj by done. by apply (Hs j).
  - apply lookup_delete_Some in Hj as [_ Hj]. by apply (Hs j).
Qed.


Lemma NoDup_fst_filter {A B} (f : A * B -> bool) (l : list (A * B)) :
  NoDup (List.map fst l) -> NoDup (List.map fst (List.filter f l)).
Proof.
  induction l as [|x l IH]; [done|]. cbn [List.map List.filter].
  intros Hnd. apply NoDup_cons in Hnd as [Hx Hnd].
  destruct (f x); [|by apply IH]. cbn [List.map]. apply NoDup_cons. split; [|by apply IH].
  intros Hin. apply Hx. apply list_elem_of_In in Hin. apply list_elem_of_In.
  apply in_map_iff in Hin as (y & Hy & Hin). apply in_map_iff. exists y.
  split; [done|]. by apply filter_In in Hin as [Hin _].
Qed.

(** * The claims *)

(** C1, as stated, fails where the sum is not a double: the handler adds
    doubles.  With [2 ^ 53] units in stock, a user adds [2 ^ 53] units of
    the product and then 1 more; each quantity is covered by the stock,
    both calls succeed, and the one entry holds [2 ^ 53], not
    [2 ^ 53 + 1].  Likewise [1 + 2 ^ -52] units and then 1 more leave 2
    units. *)
Lemma AddItem_twice_beyond_2_53 :
  let q1 := 9007199254740992 in
  let r1 := AddItem depot 7 1 q1 100 in
  let r2 := AddItem r1.1 7 1 1 101 in
  let q1' := 4503599627370497 # 4503599627370496 in
  let r1' := AddItem shop 7 1 q1' 100 in
  let r2' := AddItem r1'.1 7 1 1 101 in
  (q1 == 2 ^ 53 /\
   product_with_id depot 1 = Some crate /\
   q1 <= Product.stock crate /\ 1 <= Product.stock crate /\
   cartItems depot = ∅ /\
   status r1.2 = 201%N /\ status r2.2 = 201%N /\
   cartItems r2.1 !! 1%positive = Some (CartItem.mk 7 1 q1 100) /\
   ~ q1 == q1 + 1) /\
  (q1' == 1 + 2 ^ (-52) /\
   product_with_id shop 1 = Some phone /\
   q1' <= Product.stock phone /\ 1 <= Product.stock phone /\
   cartItems shop = ∅ /\
   status r1'.2 = 201%N /\ status r2'.2 = 201%N /\
   (exists q, cartItems r2'.1 !! 1%positive = Some (CartItem.mk 7 1 q 100) /\
              q == 2 /\ ~ q == q1' + 1)).
Proof.
  cbv zeta. split.
  - split; [reflexivity|]. split; [reflexivity|].
    split; [discriminate|]. split; [discriminate|]. split; [reflexivity|].
    split; [by vm_compute|]. split; [by vm_compute|].
    split; [by vm_compute|]. discriminate.
  - split; [reflexivity|]. split; [reflexivity|].
    split; [discriminate|]. split; [discriminate|]. split; [reflexivity|].
    split; [by vm_compute|]. split; [by vm_compute|].
    exists (4503599627370496 # 2251799813685248).
    split; [by vm_compute|]. split; [reflexivity | discriminate].
Qed.

(** C1, amended.  Adding the same product twice accumulates into one
    entry: for a user [u], a product id [pid] from 1 up to [10 ^ 21]
    excluded (where [parseInt] of a number is its truncation) that
    resolves to a catalog product [p], and integer quantities [q1], [q2]
    at least 1 that the stock of [p] covers and whose sum does not exceed
    [2 ^ 53], starting from a cart in which [u] has no entry for [pid],
    both calls succeed, and afterwards exactly one entry belongs to
    [(u, pid)]; its quantity is [q1 + q2]. *)
Theorem AddItem_twice_accumulates s u pid q1 q2 t1 t2 p :
  1 <= pid -> pid < 10 ^ 21 ->
  product_with_id s (JS.trunc pid) = Some p ->
  JS.is_integer q1 = true -> JS.is_integer q2 = true ->
  1 <= q1 -> 1 <= q2 -> q1 + q2 <= 2 ^ 53 ->
  q1 <= Product.stock p -> q2 <= Product.stock p ->
  (forall j it, cartItems s !! j = Some it -> ~ entry_for u pid it) ->
  let r1 := AddItem s u pid q1 t1 in
  let r2 := AddItem r1.1 u pid q2 t2 in
  status r1.2 = 201%N /\ status r2.2 = 201%N /\
  exists i it,
    cartItems r2.1 !! i = Some it /\ entry_for u pid it /\
    CartItem.quantity it == q1 + q2 /\
    (forall j it', cartItems r2.1 !! j = Some it' -> entry_for u pid it' -> j = i).
Proof.
  intros Hpid1 _ Hp Hi1 Hi2 Hq1 Hq2 Hsum Hs1 Hs2 Hnone r1 r2.
  assert (Hpid : ~ pid == 0) by lra.
  set (i := fresh (dom (cartItems s))).
  set (it1 := CartItem.mk u pid q1 t1).
  assert (Hfresh : cartItems s !! i = None)
    by apply not_elem_of_dom, is_fresh.
  assert (Hr1 : r1 = (with_cartItems s (<[i := it1]> (cartItems s)),
                      res_added (i, it1) (product_with_id s pid))).
  { apply AddItem_create with (p := p); try done.
    by apply CartItem_findOne_None. }
  assert (Hent1 : entry_for u pid it1) by (split; [done | simpl; lra]).
  assert (Hfind : CartItem_findOne u pid r1.1 = (r1.1, Ok (Some (i, it1)))).
  { rewrite Hr1. cbn [fst]. apply CartItem_findOne_unique; cbn [cartItems with_cartItems].
    - apply lookup_insert_eq.
    - done.
    - intros j it' Hj Hent. destruct (decide (j = i)) as [|Hne]; [done|].
      rewrite lookup_insert_ne in Hj by done. by destruct (Hnone j it'). }
  assert (Hp1 : product_with_id r1.1 (JS.trunc pid) = Some p) by (by rewrite Hr1).
  destruct (AddItem_accumulate r1.1 u pid q2 t2 p Hpid Hq2 Hp1 Hs2 i it1 Hfind Hq1)
    as (sum & Hadd & Hr2).
  fold r2 in Hr2.
  destruct (add_integers q1 q2 Hi1 Hi2 Hq1 Hq2 Hsum) as (z & Hz & Hexact).
  cbn [it1 CartItem.quantity] in Hadd. rewrite Hz in Hadd. injection Hadd as ->.
  split; [by rewrite Hr1|]. split; [by rewrite Hr2|].
  exists i, (CartItem.set_quantity sum it1).
  rewrite Hr2, Hr1. cbn [fst cartItems with_cartItems].
  split; [apply lookup_insert_eq|]. split; [done|]. split; [done|].
  intros j it' Hj Hent. destruct (decide (j = i)) as [|Hne]; [done|].
  rewrite !lookup_insert_ne in Hj by done. by destruct (Hnone j it').
Qed.

Lemma AddItem_twice_accumulates_on_shop :
  let r1 := AddItem shop 7 1 2 100 in
  let r2 := AddItem r1.1 7 1 3 101 in
  status r1.2 = 201%N /\ status r2.2 = 201%N /\
  exists i it,
    cartItems r2.1 !! i = Some it /\ entry_for 7 1 it /\
    CartItem.quantity it == 2 + 3 /\
    (forall j it', cartItems r2.1 !! j = Some it' -> entry_for 7 1 it' -> j = i).
Proof.
  apply (AddItem_twice_accumulates shop 7 1 2 3 100 101 phone).
  - intros H; discriminate H.
  - reflexivity.
  - reflexivity.
  - reflexivity.
  - reflexivity.
  - intros H; discriminate H.
  - intros H; discriminate H.
  - intros H; discriminate H.
  - intros H; discriminate H.
  - intros H; discriminate H.
  - intros j it H. cbn [shop cartItems] in H. rewrite lookup_empty in H.
    discriminate H.
Defined.

(** C2.  A request for more than the stock is refused and changes
    nothing: when [pid] resolves to a catalog product [p], [q] is at least
    1 and the stock of [p] is strictly below [q], [AddItem] answers with
    the insufficient-stock error and the store it returns is the store it
    was given (no entry created, no quantity modified). *)
Theorem AddItem_insufficient_stock s u pid q now p :
  ~ pid == 0 ->
  product_with_id s (JS.trunc pid) = Some p ->
  1 <= q ->
  Product.stock p < q ->
  (AddItem s u pid q now).1 = s /\
  error_of (AddItem s u pid q now).2 = Some InsufficientStockError.
Proof.
  intros Hpid Hp Hq Hstock. unfold AddItem, post_cart.
  rewrite validateCartItem_Num, Hp by done.
  by rewrite (proj2 (lt_Num _ _) Hstock).
Qed.

Lemma AddItem_insufficient_stock_on_shop :
  (AddItem (shop_with 1 4) 7 1 11 100).1 = shop_with 1 4 /\
  error_of (AddItem (shop_with 1 4) 7 1 11 100).2 = Some InsufficientStockError.
Proof.
  apply (AddItem_insufficient_stock (shop_with 1 4) 7 1 11 100 phone).
  - intros H; discriminate H.
  - reflexivity.
  - intros H; discriminate H.
  - reflexivity.
Defined.

(** C3, as stated, fails where the sum is not a double: the handler adds
    doubles.  User 7 has put [Q = 2 ^ 53] units of product 1 in the cart,
    all that is in stock, and adds [q = 1]; the call succeeds and the
    entry still holds [2 ^ 53], which is not [Q + q].  Likewise an entry
    holding [1 + 2 ^ -52] units holds 2 units after 1 is added. *)
Lemma AddItem_sum_is_rounded :
  let Q := 9007199254740992 in
  let s := (AddItem depot 7 1 Q 100).1 in
  let Q' := 4503599627370497 # 4503599627370496 in
  let s' := (AddItem shop 7 1 Q' 100).1 in
  (Q == 2 ^ 53 /\
   cartItems s !! 1%positive = Some (CartItem.mk 7 1 Q 100) /\
   product_with_id s 1 = Some crate /\ 1 <= Product.stock crate /\
   status (AddItem s 7 1 1 101).2 = 201%N /\
   cartItems (AddItem s 7 1 1 101).1 !! 1%positive
   = Some (CartItem.mk 7 1 Q 100) /\
   ~ Q == Q + 1) /\
  (Q' == 1 + 2 ^ (-52) /\
   cartItems s' !! 1%positive = Some (CartItem.mk 7 1 Q' 100) /\
   product_with_id s' 1 = Some phone /\ 1 <= Product.stock phone /\
   status (AddItem s' 7 1 1 101).2 = 201%N /\
   (exists q, cartItems (AddItem s' 7 1 1 101).1 !! 1%positive
              = Some (CartItem.mk 7 1 q 100) /\
              q == 2 /\ ~ q == Q' + 1)).
Proof.
  cbv zeta. split.
  - split; [reflexivity|]. split; [by vm_compute|]. split; [reflexivity|].
    split; [discriminate|]. split; [by vm_compute|]. split; [by vm_compute|].
    discriminate.
  - split; [reflexivity|]. split; [by vm_compute|]. split; [reflexivity|].
    split; [discriminate|]. split; [by vm_compute|].
    exists (4503599627370496 # 2251799813685248).
    split; [by vm_compute|]. split; [reflexivity | discriminate].
Qed.

(** C3, amended.  The stock check of [AddItem] looks at the requested
    increment only: when the product id [pid], from 1 up to [10 ^ 21]
    excluded, resolves to a catalog product, the lookup of the handler
    finds the entry [i] of [(u, pid)] holding an integer quantity
    [Q >= 1], and the integer [q >= 1] is covered by the stock of the
    product, with [Q + q <= 2 ^ 53], the call succeeds and afterwards the
    entry [i] holds [Q + q] and its other fields as they were, whatever
    the stock is compared to [Q + q]; the other entries and the catalog
    are untouched. *)
Theorem AddItem_checks_increment_only s u pid q now p i it :
  1 <= pid -> pid < 10 ^ 21 ->
  product_with_id s (JS.trunc pid) = Some p ->
  CartItem_findOne u pid s = (s, Ok (Some (i, it))) ->
  JS.is_integer (CartItem.quantity it) = true -> JS.is_integer q = true ->
  1 <= CartItem.quantity it -> 1 <= q ->
  CartItem.quantity it + q <= 2 ^ 53 ->
  q <= Product.stock p ->
  status (AddItem s u pid q now).2 = 201%N /\
  error_of (AddItem s u pid q now).2 = None /\
  (exists it',
     cartItems (AddItem s u pid q now).1 !! i = Some it' /\
     CartItem.quantity it' == CartItem.quantity it + q /\
     CartItem.user it' = CartItem.user it /\
     CartItem.product it' = CartItem.product it /\
     CartItem.addedAt it' = CartItem.addedAt it) /\
  (forall j, j <> i ->
     cartItems (AddItem s u pid q now).1 !! j = cartItems s !! j) /\
  products (AddItem s u pid q now).1 = products s.
Proof.
  intros Hpid1 _ Hp Hfind Hiold Hiq Hold Hq Hsum Hstock.
  assert (Hpid : ~ pid == 0) by lra.
  destruct (AddItem_accumulate s u pid q now p Hpid Hq Hp Hstock i it Hfind Hold)
    as (sum & Hadd & ->).
  destruct (add_integers _ _ Hiold Hiq Hold Hq Hsum) as (z & Hz & Hexact).
  rewrite Hz in Hadd. injection Hadd as ->.
  cbn [fst snd cartItems products with_cartItems].
  split; [done|]. split; [done|]. split; [|split; [|done]].
  - exists (CartItem.set_quantity sum it). by rewrite lookup_insert_eq.
  - intros j Hj. by rewrite lookup_insert_ne.
Qed.

(** Eight units in the cart, five more requested, ten in stock: the entry
    ends at thirteen. *)
Lemma AddItem_checks_increment_only_on_shop :
  status (AddItem (shop_with 1 8) 7 1 5 100).2 = 201%N /\
  error_of (AddItem (shop_with 1 8) 7 1 5 100).2 = None /\
  (exists it',
     cartItems (AddItem (shop_with 1 8) 7 1 5 100).1 !! 1%positive = Some it' /\
     CartItem.quantity it' == CartItem.quantity (CartItem.mk 7 1 8 0) + 5 /\
     CartItem.user it' = CartItem.user (CartItem.mk 7 1 8 0) /\
     CartItem.product it' = CartItem.product (CartItem.mk 7 1 8 0) /\
     CartItem.addedAt it' = CartItem.addedAt (CartItem.mk 7 1 8 0)) /\
  (forall j, j <> 1%positive ->
     cartItems (AddItem (shop_with 1 8) 7 1 5 100).1 !! j
     = cartItems (shop_with 1 8) !! j) /\
  products (AddItem (shop_with 1 8) 7 1 5 100).1 = products (shop_with 1 8).
Proof.
  apply (AddItem_checks_increment_only (shop_with 1 8) 7 1 5 100 phone 1
           (CartItem.mk 7 1 8 0)).
  - intros H; discriminate H.
  - reflexivity.
  - reflexivity.
  - reflexivity.
  - reflexivity.
  - reflexivity.
  - intros H; discriminate H.
  - intros H; discriminate H.
  - intros H; discriminate H.
  - intros H; discriminate H.
Defined.

(** C4.  [UpdateItem] on an item [i] of the caller whose product is in the
    catalog, with [newQuantity >= 1]: if the stock of the product is
    strictly below [newQuantity] the call fails with the insufficient-stock
    error and the store is unchanged; otherwise the call succeeds and the
    entry [i] holds [newQuantity] itself, whatever it held before, and its
    other fields as they were; the other entries and the catalog are
    untouched. *)
Theorem UpdateItem_sets_quantity s u i it q p :
  cartItems s !! i = Some it ->
  CartItem.user it = u ->
  1 <= q ->
  product_with_id s (CartItem.product it) = Some p ->
  (Product.stock p < q ->
   (UpdateItem s u i q).1 = s /\
   error_of (UpdateItem s u i q).2 = Some InsufficientStockError) /\
  (q <= Product.stock p ->
   status (UpdateItem s u i q).2 = 200%N /\
   error_of (UpdateItem s u i q).2 = None /\
   cartItems (UpdateItem s u i q).1 !! i
   = Some (CartItem.mk (CartItem.user it) (CartItem.product it) q
             (CartItem.addedAt it)) /\
   (forall j, j <> i ->
      cartItems (UpdateItem s u i q).1 !! j = cartItems s !! j) /\
   products (UpdateItem s u i q).1 = products s).
Proof.
  intros Hi Hu Hq Hp. rewrite (UpdateItem_valid s u i q Hq), Hi, Hp.
  rewrite (proj2 (Pos.eqb_eq _ _) Hu). cbn [negb].
  split; intros Hstock.
  - by rewrite (proj2 (lt_Num _ _) Hstock).
  - rewrite (proj2 (lt_Num_false _ _) Hstock).
    cbn [fst snd cartItems products with_cartItems].
    split; [done|]. split; [done|]. split; [|split; [|done]].
    + by rewrite lookup_insert_eq.
    + intros j Hj. by rewrite lookup_insert_ne.
Qed.

(** Seven units in the cart and ten in stock: asking for twelve is
    refused, asking for two leaves two. *)
Lemma UpdateItem_sets_quantity_on_shop :
  ((UpdateItem (shop_with 1 7) 7 1 12).1 = shop_with 1 7 /\
   error_of (UpdateItem (shop_with 1 7) 7 1 12).2 = Some InsufficientStockError) /\
  (status (UpdateItem (shop_with 1 7) 7 1 2).2 = 200%N /\
   error_of (UpdateItem (shop_with 1 7) 7 1 2).2 = None /\
   cartItems (UpdateItem (shop_with 1 7) 7 1 2).1 !! 1%positive
   = Some (CartItem.mk 7 1 2 0) /\
   (forall j, j <> 1%positive ->
      cartItems (UpdateItem (shop_with 1 7) 7 1 2).1 !! j
      = cartItems (shop_with 1 7) !! j) /\
   products (UpdateItem (shop_with 1 7) 7 1 2).1 = products (shop_with 1 7)).
Proof.
  split.
  - apply (UpdateItem_sets_quantity (shop_with 1 7) 7 1 (CartItem.mk 7 1 7 0) 12 phone).
    + reflexivity.
    + reflexivity.
    + intros H; discriminate H.
    + reflexivity.
    + reflexivity.
  - apply (UpdateItem_sets_quantity (shop_with 1 7) 7 1 (CartItem.mk 7 1 7 0) 2 phone).
    + reflexivity.
    + reflexivity.
    + intros H; discriminate H.
    + reflexivity.
    + intros H; discriminate H.
Defined.

(** C5, as stated, fails: the quantity of the body is validated before
    the item is looked up, so a caller who does not own item 1 and sends
    the quantity 0 receives the validation error, not the ownership
    error. *)
Lemma UpdateItem_non_owner_invalid_quantity :
  cartItems (shop_with 1 4) !! 1%positive = Some (CartItem.mk 7 1 4 0) /\
  CartItem.user (CartItem.mk 7 1 4 0) <> 8%positive /\
  UpdateItem (shop_with 1 4) 8 1 0
  = (shop_with 1 4, res_error 400 "Quantity must be at least 1") /\
  error_of (UpdateItem (shop_with 1 4) 8 1 0).2 <> Some ForbiddenError.
Proof. repeat split; discriminate. Qed.

(** C5, amended.  For an existing cart item and a caller who is not its
    stored owner, [RemoveItem] fails with the ownership error, and so does
    [UpdateItem] with a quantity of at least 1, whatever the stock; with a
    quantity below 1 [UpdateItem] fails with the validation error instead.
    The store is unchanged in every case. *)
Theorem non_owner_cannot_mutate s u i it :
  cartItems s !! i = Some it ->
  CartItem.user it <> u ->
  (forall q, 1 <= q ->
     (UpdateItem s u i q).1 = s /\
     error_of (UpdateItem s u i q).2 = Some ForbiddenError) /\
  (forall q, q < 1 ->
     (UpdateItem s u i q).1 = s /\
     error_of (UpdateItem s u i q).2 = Some ValidationError) /\
  (RemoveItem s u i).1 = s /\
  error_of (RemoveItem s u i).2 = Some ForbiddenError.
Proof.
  intros Hi Hu.
  assert (Hneq : negb (Pos.eqb (CartItem.user it) u) = true)
    by (by apply negb_true_iff, Pos.eqb_neq).
  repeat split.
  - by rewrite (UpdateItem_valid s u i q), Hi, Hneq.
  - by rewrite (UpdateItem_valid s u i q), Hi, Hneq.
  - by rewrite (UpdateItem_invalid s u i q).
  - by rewrite (UpdateItem_invalid s u i q).
  - by rewrite RemoveItem_cases, Hi, Hneq.
  - by rewrite RemoveItem_cases, Hi, Hneq.
Qed.

Lemma non_owner_cannot_mutate_on_shop :
  (forall q, 1 <= q ->
     (UpdateItem (shop_with 1 4) 8 1 q).1 = shop_with 1 4 /\
     error_of (UpdateItem (shop_with 1 4) 8 1 q).2 = Some ForbiddenError) /\
  (forall q, q < 1 ->
     (UpdateItem (shop_with 1 4) 8 1 q).1 = shop_with 1 4 /\
     error_of (UpdateItem (shop_with 1 4) 8 1 q).2 = Some ValidationError) /\
  (RemoveItem (shop_with 1 4) 8 1).1 = shop_with 1 4 /\
  error_of (RemoveItem (shop_with 1 4) 8 1).2 = Some ForbiddenError.
Proof.
  apply (non_owner_cannot_mutate (shop_with 1 4) 8 1 (CartItem.mk 7 1 4 0)).
  - reflexivity.
  - discriminate.
Defined.

(** C6.  Removing an item of the caller twice: the first call succeeds
    and deletes the entry, the second fails with the not-found error and
    changes nothing. *)
Theorem RemoveItem_twice s u i it :
  cartItems s !! i = Some it ->
  CartItem.user it = u ->
  let r1 := RemoveItem s u i in
  let r2 := RemoveItem r1.1 u i in
  status r1.2 = 200%N /\ error_of r1.2 = None /\
  r1.1 = with_cartItems s (delete i (cartItems s)) /\
  cartItems r1.1 !! i = None /\
  error_of r2.2 = Some NotFoundError /\ r2.1 = r1.1.
Proof.
  intros Hi Hu r1 r2.
  assert (Hr1 : r1 = (with_cartItems s (delete i (cartItems s)), res_removed)).
  { unfold r1. rewrite RemoveItem_cases, Hi.
    by rewrite (proj2 (Pos.eqb_eq _ _) Hu). }
  assert (Hgone : cartItems r1.1 !! i = None)
    by (rewrite Hr1; apply lookup_delete_eq).
  assert (Hr2 : r2 = (r1.1, res_error 404 "Cart item not found"))
    by (unfold r2; by rewrite RemoveItem_cases, Hgone).
  by rewrite Hr2, Hr1 in *.
Qed.

Lemma RemoveItem_twice_on_shop :
  let r1 := RemoveItem (shop_with 1 4) 7 1 in
  let r2 := RemoveItem r1.1 7 1 in
  status r1.2 = 200%N /\ error_of r1.2 = None /\
  r1.1 = with_cartItems (shop_with 1 4) (delete 1%positive (cartItems (shop_with 1 4))) /\
  cartItems r1.1 !! 1%positive = None /\
  error_of r2.2 = Some NotFoundError /\ r2.1 = r1.1.
Proof.
  apply (RemoveItem_twice (shop_with 1 4) 7 1 (CartItem.mk 7 1 4 0)); reflexivity.
Defined.

(** C7.  [ListCart] answers with status 200 and a sequence holding, once
    each, exactly the entries whose stored owner is the caller: every
    entry of the caller is in the sequence under its [_id]; every element
    of the sequence carries the [_id], the owner, the quantity and the
    date of a stored entry of the caller, joined with a catalog product
    whose id is the product id of the entry ([null] when the catalog has
    none); the sequence is empty when the caller owns no entry; and the
    store is returned as it was received. *)
Theorem ListCart_owned_entries s u :
  exists items,
    ListCart s u = (s, {| status := 200; json := CartJson items |}) /\
    (forall i it, cartItems s !! i = Some it -> CartItem.user it = u ->
       exists x, In x items /\ Populated._id x = i) /\
    (forall x, In x items ->
       exists it,
         cartItems s !! Populated._id x = Some it /\
         CartItem.user it = u /\
         Populated.user x = u /\
         Populated.quantity x = CartItem.quantity it /\
         Populated.addedAt x = CartItem.addedAt it /\
         match Populated.product x with
         | Some p => In p (products s) /\ Product.id p == CartItem.product it
         | None =>
             forall p, In p (products s) -> ~ Product.id p == CartItem.product it
         end) /\
    NoDup (List.map Populated._id items) /\
    ((forall i it, cartItems s !! i = Some it -> CartItem.user it <> u) ->
     items = []).
Proof.
  unfold ListCart. rewrite get_cart_eq. eexists. split; [reflexivity|].
  set (owned := List.filter _ _).
  assert (Howned : forall i it,
             In (i, it) owned <-> cartItems s !! i = Some it /\ CartItem.user it = u).
  { intros i it. unfold owned. rewrite filter_In, <- list_elem_of_In.
    rewrite elem_of_map_to_list. cbn [snd]. by rewrite Pos.eqb_eq. }
  split; [|split; [|split]].
  - intros i it Hi Hu. eexists. split.
    + apply in_map_iff. exists (i, it). split; [reflexivity|]. by apply Howned.
    + done.
  - intros x Hx. apply in_map_iff in Hx as ([i it] & <- & Hin).
    apply Howned in Hin as [Hi Hu]. exists it.
    cbn [populate Populated._id Populated.user Populated.quantity
         Populated.addedAt Populated.product fst snd].
    split; [done|]. split; [done|]. split; [done|]. split; [done|].
    split; [done|]. unfold product_with_id.
    destruct (find _ (products s)) as [p|] eqn:E.
    + apply find_some in E as [Hin Hid]. split; [done|].
      by apply Qeq_bool_iff.
    + intros p Hin Hid. eapply find_none in E; [|exact Hin].
      apply Qeq_bool_iff in Hid. cbn beta in E. congruence.
  - rewrite List.map_map. cbn [populate Populated._id].
    apply (NoDup_fst_filter _ (map_to_list (cartItems s))).
    apply NoDup_fst_map_to_list.
  - intros Hnone. destruct owned as [|[i it] l] eqn:E; [done|].
    destruct (proj1 (Howned i it) (or_introl eq_refl)) as [Hi Hu].
    by destruct (Hnone i it).
Qed.

(** User 7 holds four units of the phone: the answer is that one entry,
    joined with the phone. *)
Lemma ListCart_owned_entries_on_shop :
  (ListCart (shop_with 1 4) 7).2
  = {| status := 200;
       json := CartJson [Populated.mk 1 7 4 0 (Some phone)] |} /\
  exists items,
    ListCart (shop_with 1 4) 7
    = (shop_with 1 4, {| status := 200; json := CartJson items |}) /\
    (forall i it, cartItems (shop_with 1 4) !! i = Some it ->
       CartItem.user it = 7%positive ->
       exists x, In x items /\ Populated._id x = i) /\
    (forall x, In x items ->
       exists it,
         cartItems (shop_with 1 4) !! Populated._id x = Some it /\
         CartItem.user it = 7%positive /\
         Populated.user x = 7%positive /\
         Populated.quantity x = CartItem.quantity it /\
         Populated.addedAt x = CartItem.addedAt it /\
         match Populated.product x with
         | Some p =>
             In p (products (shop_with 1 4)) /\
             Product.id p == CartItem.product it
         | None =>
             forall p, In p (products (shop_with 1 4)) ->
                       ~ Product.id p == CartItem.product it
         end) /\
    NoDup (List.map Populated._id items) /\
    ((forall i it, cartItems (shop_with 1 4) !! i = Some it ->
                   CartItem.user it <> 7%positive) ->
     items = []).
Proof.
  split; [reflexivity | apply (ListCart_owned_entries (shop_with 1 4) 7)].
Defined.




(** C9.  No request to a cart route changes the [Product] collection:
    after [ListCart], [AddItem], [UpdateItem] or [RemoveItem], and after any
    sequence of requests, the catalog is the list of records it was, the
    stock of every product included. *)
Theorem cart_operations_leave_catalog :
  (forall s u, products (ListCart s u).1 = products s) /\
  (forall s u pid q now, products (AddItem s u pid q now).1 = products s) /\
  (forall s u i q, products (UpdateItem s u i q).1 = products s) /\
  (forall s u i, products (RemoveItem s u i).1 = products s) /\
  (forall r s, products (handle r s).1 = products s) /\
  (forall rs s, products (serve rs s) = products s).
Proof.
  repeat split.
  - intros s u. apply (handle_products (GET_cart u)).
  - intros s u pid q now. apply (handle_products (POST_cart u _ now)).
  - intros s u i q. apply (handle_products (PUT_cart u i _)).
  - intros s u i. apply (handle_products (DELETE_cart u i)).
  - apply handle_products.
  - induction rs as [|r rs IH]; intros s; [done|].
    cbn [serve]. by rewrite IH, handle_products.
Qed.

(** C10.  An item of the caller whose product id resolves to no catalog
    product: [UpdateItem] never answers with the not-found error and never
    changes the store; once the quantity has passed the validation
    ([newQuantity >= 1]) the handler reads [stock] on [null], the
    exception is caught, and the answer is the storage error with status
    500. *)
Theorem UpdateItem_dangling_product s u i it q :
  cartItems s !! i = Some it ->
  CartItem.user it = u ->
  product_with_id s (CartItem.product it) = None ->
  (UpdateItem s u i q).1 = s /\
  error_of (UpdateItem s u i q).2 <> Some NotFoundError /\
  (1 <= q ->
   UpdateItem s u i q = (s, server_error TypeError) /\
   status (UpdateItem s u i q).2 = 500%N /\
   error_of (UpdateItem s u i q).2 = Some StorageError).
Proof.
  intros Hi Hu Hp.
  assert (Hvalid : 1 <= q -> UpdateItem s u i q = (s, server_error TypeError)).
  { intros Hq. rewrite (UpdateItem_valid s u i q Hq), Hi, Hp.
    by rewrite (proj2 (Pos.eqb_eq _ _) Hu). }
  destruct (Qlt_le_dec q 1) as [Hlt|Hge].
  - rewrite (UpdateItem_invalid s u i q Hlt).
    split; [done|]. split; [discriminate|]. intros Hge. lra.
  - rewrite (Hvalid Hge). split; [done|]. split; [discriminate|done].
Qed.

(** The cart of user 7 refers to the product id 2, which the catalog does
    not have; the user asks for five units. *)
Lemma UpdateItem_dangling_product_on_shop :
  (UpdateItem (shop_with 2 4) 7 1 5).1 = shop_with 2 4 /\
  error_of (UpdateItem (shop_with 2 4) 7 1 5).2 <> Some NotFoundError /\
  (1 <= 5 ->
   UpdateItem (shop_with 2 4) 7 1 5 = (shop_with 2 4, server_error TypeError) /\
   status (UpdateItem (shop_with 2 4) 7 1 5).2 = 500%N /\
   error_of (UpdateItem (shop_with 2 4) 7 1 5).2 = Some StorageError).
Proof.
  apply (UpdateItem_dangling_product (shop_with 2 4) 7 1 (CartItem.mk 7 2 4 0) 5);
    reflexivity.
Defined.

(** * The catalog routes: properties *)

(** ** The product with the greatest id *)

Lemma greatest_id_None ps : greatest_id ps = None -> ps = [].
Proof.
  destruct ps as [|p ps]; [done|]. cbn [greatest_id].
  destruct (greatest_id ps); [|done]. by destruct (Qle_bool _ _).
Qed.

Lemma greatest_id_Some ps m :
  greatest_id ps = Some m ->
  In m ps /\ forall p, In p ps -> Product.id p <= Product.id m.
Proof.
  revert m. induction ps as [|p ps IH]; intros m Hm; [done|].
  cbn [greatest_id] in Hm. destruct (greatest_id ps) as [m'|] eqn:E.
  - destruct (IH m' eq_refl) as [Hin Hmax].
    destruct (Qle_bool (Product.id m') (Product.id p)) eqn:Hle;
      injection Hm as <-.
    + apply Qle_bool_iff in Hle. split; [by left|].
      intros p' [<-|Hp']; [lra|]. specialize (Hmax p' Hp'). lra.
    + assert (Hlt : Product.id p < Product.id m').
      { apply Qnot_le_lt. intros H. apply Qle_bool_iff in H. congruence. }
      split; [by right|]. intros p' [<-|Hp']; [lra|by apply Hmax].
  - injection Hm as <-. apply greatest_id_None in E as ->.
    split; [by left|]. intros p' [<-|[]]. lra.
Qed.

Lemma next_id_greater s p : In p (products s) -> Product.id p < next_id s.
Proof.
  intros Hp. unfold next_id. destruct (greatest_id (products s)) as [m|] eqn:E.
  - apply greatest_id_Some in E as [_ Hmax]. specialize (Hmax p Hp). lra.
  - apply greatest_id_None in E. rewrite E in Hp. destruct Hp.
Qed.

(** ** [POST /products] as a case table *)

Lemma required_number_ok lo hi q s :
  lo <= q -> match hi with Some m => q <= m | None => True end ->
  required_number lo hi (JS.Num q) s = (s, Ok q).
Proof.
  intros Hlo Hhi. unfold required_number.
  rewrite (proj2 (lt_Num_false _ _) Hlo). destruct hi as [m|]; [|done].
  by rewrite (proj2 (lt_Num_false _ _) Hhi).
Qed.

Lemma required_number_inv lo hi v s s' q :
  required_number lo hi v s = (s', Ok q) ->
  s' = s /\ v = JS.Num q /\ lo <= q /\
  match hi with Some m => q <= m | None => True end.
Proof.
  unfold required_number. destruct v as [| |x]; [done|done|].
  destruct (JS.lt (JS.Num x) (JS.Num lo)) eqn:Hlo; [done|].
  apply lt_Num_false in Hlo. destruct hi as [m|].
  - destruct (JS.lt (JS.Num m) (JS.Num x)) eqn:Hhi; [done|].
    apply lt_Num_false in Hhi. unfold ret. by intros [= -> ->].
  - unfold ret. by intros [= -> ->].
Qed.

Lemma required_string_inv v s s' x :
  required_string v s = (s', Ok x) -> s' = s /\ v = Some x /\ x <> EmptyString.
Proof.
  unfold required_string. destruct v as [[|c r]|]; try done.
  unfold ret. by intros [= -> <-].
Qed.

Lemma required_string_ok x s :
  x <> EmptyString -> required_string (Some x) s = (s, Ok x).
Proof. by destruct x. Qed.

Lemma Product_validate_state d s : (Product_validate d s).1 = s.
Proof.
  unfold Product_validate, bind, required_string, required_number, ret, throw.
  repeat (case_match; simplify_eq/=; try done).
Qed.

Lemma Product_validate_Ok d s s' p :
  Product_validate d s = (s', Ok p) ->
  ProductDraft.title d = Some (Product.title p) /\ Product.title p <> EmptyString /\
  ProductDraft.description d = Some (Product.description p) /\
  Product.description p <> EmptyString /\
  ProductDraft.category d = Some (Product.category p) /\
  Product.category p <> EmptyString /\
  ProductDraft.price d = JS.Num (Product.price p) /\ 0 <= Product.price p /\
  ProductDraft.rating d = JS.Num (Product.rating p) /\
  0 <= Product.rating p /\ Product.rating p <= 5 /\
  ProductDraft.stock d = JS.Num (Product.stock p) /\ 0 <= Product.stock p /\
  Product.id p = ProductDraft.id d.
Proof.
  unfold Product_validate, bind.
  destruct (required_string (ProductDraft.title d) s) as [s1 [t|]] eqn:E1; [|done].
  apply required_string_inv in E1 as (-> & Ht & Ht').
  destruct (required_string (ProductDraft.description d) s) as [s1 [de|]] eqn:E2; [|done].
  apply required_string_inv in E2 as (-> & Hd & Hd').
  destruct (required_string (ProductDraft.category d) s) as [s1 [c|]] eqn:E3; [|done].
  apply required_string_inv in E3 as (-> & Hc & Hc').
  destruct (required_number 0 None (ProductDraft.price d) s) as [s1 [pr|]] eqn:E4; [|done].
  apply required_number_inv in E4 as (-> & Hpr & Hpr' & _).
  destruct (required_number 0 (Some 5) (ProductDraft.rating d) s) as [s1 [ra|]] eqn:E5; [|done].
  apply required_number_inv in E5 as (-> & Hra & Hra' & Hra'').
  destruct (required_number 0 None (ProductDraft.stock d) s) as [s1 [st|]] eqn:E6; [|done].
  apply required_number_inv in E6 as (-> & Hst & Hst' & _).
  unfold ret. intros [= _ <-]. cbn. by repeat split.
Qed.

Lemma Product_validate_valid s id b t d c pr ra st :
  valid_product_body b t d c pr ra st ->
  Product_validate (Product_new id b) s
  = (s, Ok {| Product.id := id; Product.title := JSString.trim t;
              Product.description := d; Product.category := c;
              Product.price := pr; Product.rating := ra; Product.stock := st |}).
Proof.
  intros (Ht & Ht' & Hd & Hd' & Hc & Hc' & Hpr & Hpr' & Hra & Hra' & Hra'' & Hst & Hst').
  unfold Product_validate, Product_new, bind. cbn [ProductDraft.title
    ProductDraft.description ProductDraft.category ProductDraft.price
    ProductDraft.rating ProductDraft.stock ProductDraft.id].
  rewrite Ht, Hd, Hc, Hpr, Hra, Hst. cbn [fmap option_fmap option_map].
  rewrite !required_string_ok by done.
  by rewrite !required_number_ok by done.
Qed.

Lemma post_products_valid s b t d c pr ra st :
  valid_product_body b t d c pr ra st ->
  post_products b s
  = (with_products s (products s ++ [new_product s t d c pr ra st]),
     {| catalog_status := 201;
        catalog_json := ProductJson (new_product s t d c pr ra st) |}).
Proof.
  intros Hvalid. unfold post_products, try_, bind, Product_findOne_sort_id_desc, Product_save.
  fold (next_id s). unfold bind.
  by rewrite (Product_validate_valid s (next_id s) b t d c pr ra st Hvalid).
Qed.

Lemma post_products_invalid s b :
  ~ (exists t d c pr ra st, valid_product_body b t d c pr ra st) ->
  post_products b s = (s, catalog_error 500 "Server error").
Proof.
  intros Hinv. unfold post_products, try_, bind, Product_findOne_sort_id_desc, Product_save.
  fold (next_id s). unfold bind.
  pose proof (Product_validate_state (Product_new (next_id s) b) s) as Hst.
  destruct (Product_validate (Product_new (next_id s) b) s) as [s' [p|e]] eqn:E;
    cbn [fst] in Hst; subst s'; [|done].
  exfalso. apply Hinv.
  apply Product_validate_Ok in E.
  destruct E as (Ht & Ht' & Hd & Hd' & Hc & Hc' & Hpr & Hpr' & Hra & Hra' & Hra'' & Hst & Hst' & _).
  cbn [Product_new ProductDraft.title ProductDraft.description ProductDraft.category
       ProductDraft.price ProductDraft.rating ProductDraft.stock] in *.
  destruct (ProductBody.title b) as [t|] eqn:Et; [|done].
  cbn [fmap option_fmap option_map] in Ht. injection Ht as Ht.
  exists t, (Product.description p), (Product.category p), (Product.price p),
    (Product.rating p), (Product.stock p).
  unfold valid_product_body. rewrite Ht. by repeat split.
Qed.

(** ** [trim] *)

Lemma trimStart_clean s : starts_clean (JSString.trimStart s).
Proof.
  induction s as [|c r IH]; [done|]. cbn [JSString.trimStart].
  by destruct (JSString.is_white_space c) eqn:E.
Qed.

Lemma trimStart_id s : starts_clean s -> JSString.trimStart s = s.
Proof. destruct s as [|c r]; [done|]. cbn. by intros ->. Qed.

Lemma trimEnd_clean s : starts_clean s -> starts_clean (JSString.trimEnd s).
Proof.
  destruct s as [|c r]; [done|]. cbn [JSString.trimEnd starts_clean]. intros Hc.
  destruct (JSString.trimEnd r); by rewrite ?Hc.
Qed.

Lemma trimEnd_String c r :
  JSString.trimEnd (String c r)
  = match JSString.trimEnd r with
    | EmptyString =>
        if JSString.is_white_space c then EmptyString else String c EmptyString
    | r' => String c r'
    end.
Proof. reflexivity. Qed.

Lemma trimEnd_idem s : JSString.trimEnd (JSString.trimEnd s) = JSString.trimEnd s.
Proof.
  induction s as [|c r IH]; [done|]. rewrite trimEnd_String.
  destruct (JSString.trimEnd r) as [|c' r'] eqn:E.
  - destruct (JSString.is_white_space c) eqn:Hc; [done|].
    by rewrite trimEnd_String, Hc.
  - by rewrite trimEnd_String, IH.
Qed.

Lemma trim_idem s : JSString.trim (JSString.trim s) = JSString.trim s.
Proof.
  unfold JSString.trim.
  rewrite (trimStart_id (JSString.trimEnd _)); [apply trimEnd_idem|].
  apply trimEnd_clean, trimStart_clean.
Qed.

(** ** What a request can do to the catalog *)

Lemma get_product_state id s : (get_product id s).1 = s.
Proof.
  unfold get_product, validateProductId.
  destruct (negb _); [done|].
  unfold bind, castNumber, Product_findOne, throw, ret.
  destruct (JSString.parseInt id); try done.
  by destruct (product_with_id s q).
Qed.

Lemma post_products_cases b s :
  post_products b s = (s, catalog_error 500 "Server error") \/
  exists t d c pr ra st,
    valid_product_body b t d c pr ra st /\
    post_products b s
    = (with_products s (products s ++ [new_product s t d c pr ra st]),
       {| catalog_status := 201;
          catalog_json := ProductJson (new_product s t d c pr ra st) |}).
Proof.
  destruct (Product_validate (Product_new (next_id s) b) s) as [s' [p|e]] eqn:E.
  - right. apply Product_validate_Ok in E.
    destruct E as (Ht & Ht' & Hd & Hd' & Hc & Hc' & Hpr & Hpr' & Hra & Hra' & Hra'' & Hst & Hst' & _).
    cbn [Product_new ProductDraft.title ProductDraft.description ProductDraft.category
         ProductDraft.price ProductDraft.rating ProductDraft.stock] in *.
    destruct (ProductBody.title b) as [t|] eqn:Et; [|done].
    cbn [fmap option_fmap option_map] in Ht. injection Ht as Ht.
    exists t, (Product.description p), (Product.category p), (Product.price p),
      (Product.rating p), (Product.stock p).
    assert (Hv : valid_product_body b t (Product.description p) (Product.category p)
                   (Product.price p) (Product.rating p) (Product.stock p)).
    { unfold valid_product_body. rewrite Ht. by repeat split. }
    split; [done|]. by apply post_products_valid.
  - left. unfold post_products, try_, bind, Product_findOne_sort_id_desc, Product_save.
    fold (next_id s). unfold bind.
    pose proof (Product_validate_state (Product_new (next_id s) b) s) as Hst.
    rewrite E in *. cbn [fst] in Hst. by subst s'.
Qed.

(** A request leaves the catalog as it is or appends one valid product
    under the next id. *)
Lemma api_handle_products r s :
  products (api_handle r s) = products s \/
  exists t d c pr ra st,
    JSString.trim t <> EmptyString /\ d <> EmptyString /\ c <> EmptyString /\
    0 <= pr /\ 0 <= ra /\ ra <= 5 /\ 0 <= st /\
    products (api_handle r s) = products s ++ [new_product s t d c pr ra st].
Proof.
  destruct r as [r| |id|b]; cbn [api_handle].
  - left. apply handle_products.
  - by left.
  - left. by rewrite get_product_state.
  - destruct (post_products_cases b s) as [->|(t & d & c & pr & ra & st & Hv & ->)];
      [by left|right].
    exists t, d, c, pr, ra, st.
    destruct Hv as (_ & Ht' & _ & Hd' & _ & Hc' & _ & Hpr' & _ & Hra' & Hra'' & _ & Hst').
    by repeat split.
Qed.

Lemma ids_increasing_snoc ps p :
  ids_increasing ps ->
  (forall p', In p' ps -> Product.id p' < Product.id p) ->
  ids_increasing (ps ++ [p]).
Proof.
  induction ps as [|x ps IH]; intros Hinc Hlt; cbn [app ids_increasing].
  - split; [|done]. by intros p' [].
  - destruct Hinc as [Hx Hinc]. split.
    + intros p' Hin. apply in_app_or in Hin as [Hin|[<-|[]]].
      * by apply Hx.
      * apply Hlt. by left.
    + apply IH; [done|]. intros p' Hin. apply Hlt. by right.
Qed.

Lemma next_id_ok s :
  (forall p, In p (products s) -> product_ok p) ->
  JS.is_integer (next_id s) = true /\ 1 <= next_id s.
Proof.
  intros Hok. unfold next_id.
  destruct (greatest_id (products s)) as [m|] eqn:E; [|by split].
  apply greatest_id_Some in E as [Hin _].
  destruct (Hok m Hin) as (Hint & Hge & _). split.
  - by apply is_integer_plus.
  - lra.
Qed.

Lemma api_handle_catalog_ok r s : catalog_ok s -> catalog_ok (api_handle r s).
Proof.
  intros [Hok Hinc]. unfold catalog_ok.
  destruct (api_handle_products r s)
    as [->|(t & d & c & pr & ra & st & Ht & Hd & Hc & Hpr & Hra & Hra' & Hst & ->)];
    [done|].
  destruct (next_id_ok s Hok) as [Hint Hge]. split.
  - intros p Hin. apply in_app_or in Hin as [Hin|[<-|[]]]; [by apply Hok|].
    unfold product_ok, new_product.
    cbn [Product.id Product.title Product.description Product.category
         Product.price Product.rating Product.stock].
    rewrite trim_idem. by repeat split.
  - apply ids_increasing_snoc; [done|]. intros p' Hin. by apply next_id_greater.
Qed.

Lemma api_serve_catalog_ok rs s : catalog_ok s -> catalog_ok (api_serve rs s).
Proof.
  revert s. induction rs as [|r rs IH]; intros s Hs; [done|].
  cbn [api_serve]. by apply IH, api_handle_catalog_ok.
Qed.

(** ** Numbering from one *)

Lemma numbered_next_id s :
  numbered_from_one (products s) ->
  next_id s == inject_Z (Z.of_nat (length (products s)) + 1).
Proof.
  intros Hnum. unfold next_id.
  destruct (greatest_id (products s)) as [m|] eqn:E.
  - apply greatest_id_Some in E as [Hin Hmax].
    apply In_nth_error in Hin as [k Hk].
    pose proof (Hnum k m Hk) as Hm.
    assert (Hlt : (k < length (products s))%nat)
      by (apply nth_error_Some; congruence).
    destruct (nth_error (products s) (length (products s) - 1)) as [l|] eqn:El.
    + pose proof (Hnum _ l El) as Hl.
      pose proof (Hmax l (nth_error_In _ _ El)) as Hle.
      rewrite Hm, Hl in Hle. rewrite <- Zle_Qle in Hle.
      rewrite Hm. unfold Qeq, Qplus, inject_Z. cbn [Qnum Qden]. lia.
    + apply nth_error_None in El. lia.
  - apply greatest_id_None in E as ->. reflexivity.
Qed.

Lemma numbered_snoc ps p :
  numbered_from_one ps ->
  Product.id p == inject_Z (Z.of_nat (length ps) + 1) ->
  numbered_from_one (ps ++ [p]).
Proof.
  intros Hnum Hp k p' Hk.
  destruct (Nat.lt_ge_cases k (length ps)) as [Hlt|Hge].
  - rewrite nth_error_app1 in Hk by done. by apply Hnum.
  - rewrite nth_error_app2 in Hk by done.
    destruct (k - length ps)%nat as [|n] eqn:E.
    + injection Hk as <-. replace k with (length ps) by lia. done.
    + cbn in Hk. by destruct n.
Qed.

Lemma api_handle_numbered r s :
  numbered_from_one (products s) -> numbered_from_one (products (api_handle r s)).
Proof.
  intros Hnum.
  destruct (api_handle_products r s)
    as [->|(t & d & c & pr & ra & st & _ & _ & _ & _ & _ & _ & _ & ->)]; [done|].
  apply numbered_snoc; [done|]. by apply numbered_next_id.
Qed.

Lemma api_serve_prefix rs s :
  exists new, products (api_serve rs s) = products s ++ new.
Proof.
  revert s. induction rs as [|r rs IH]; intros s; cbn [api_serve].
  - exists []. by rewrite app_nil_r.
  - destruct (IH (api_handle r s)) as [new ->].
    destruct (api_handle_products r s)
      as [->|(t & d & c & pr & ra & st & _ & _ & _ & _ & _ & _ & _ & ->)].
    + by exists new.
    + rewrite <- app_assoc. by eexists.
Qed.

(** ** [parseInt] on a decimal numeral *)

Lemma digit_cases d : (d < 10)%N ->
  d = 0%N \/ d = 1%N \/ d = 2%N \/ d = 3%N \/ d = 4%N \/
  d = 5%N \/ d = 6%N \/ d = 7%N \/ d = 8%N \/ d = 9%N.
Proof. lia. Qed.

Ltac each_digit d H :=
  destruct (digit_cases d H) as [->|[->|[->|[->|[->|[->|[->|[->|[->| ->]]]]]]]]].

Lemma radix_digit_numeral d :
  (d < 10)%N -> JSString.radix_digit 10 (ascii_of_N (48 + d)) = Some d.
Proof. intros H. each_digit d H; reflexivity. Qed.

Lemma numeral_cons_append d ds (rest : string) :
  numeral (d :: ds) +:+ rest = String (ascii_of_N (48 + d)) (numeral ds +:+ rest).
Proof. reflexivity. Qed.

Lemma numeral_nil_append (rest : string) : numeral [] +:+ rest = rest.
Proof. reflexivity. Qed.

Lemma leading_digits_numeral ds rest :
  Forall (fun d => (d < 10)%N) ds -> no_digit_ahead rest ->
  JSString.leading_digits 10 (numeral ds +:+ rest) = ds.
Proof.
  intros Hds Hrest. induction Hds as [|d ds Hd _ IH].
  - rewrite numeral_nil_append. destruct rest as [|c r]; [done|].
    cbn [no_digit_ahead] in Hrest. cbn [JSString.leading_digits].
    by rewrite Hrest.
  - rewrite numeral_cons_append. cbn [JSString.leading_digits].
    by rewrite (radix_digit_numeral d Hd), IH.
Qed.

Lemma parseInt_numeral ds rest :
  decimal_digits ds -> no_digit_ahead rest ->
  (ds = [0%N] -> no_x_ahead rest) ->
  JSString.parseInt (numeral ds +:+ rest)
  = JS.Num (inject_Z (Z.of_N (JSString.digits_value 10 ds))).
Proof.
  intros [Hne Hds] Hrest Hx.
  assert (Hlead := leading_digits_numeral ds rest Hds Hrest).
  destruct ds as [|d ds]; [done|]. clear Hne.
  apply Forall_cons in Hds as [Hd Hds].
  assert (Hstrip : JSString.strip_prefix (numeral (d :: ds) +:+ rest)
                   = (10%N, numeral (d :: ds) +:+ rest)).
  { destruct (N.eq_dec d 0) as [->|Hd0].
    - destruct ds as [|d' ds].
      + rewrite numeral_cons_append, numeral_nil_append.
        destruct rest as [|c r]; [done|]. cbn [JSString.strip_prefix].
        destruct (Hx eq_refl) as [Hc1 Hc2].
        apply Ascii.eqb_neq in Hc1, Hc2. by rewrite Hc1, Hc2.
      + apply Forall_cons in Hds as [Hd' _]. rewrite !numeral_cons_append.
        each_digit d' Hd'; reflexivity.
    - rewrite numeral_cons_append.
      each_digit d Hd; try done; by destruct (numeral ds +:+ rest). }
  unfold JSString.parseInt.
  assert (Hsign : JSString.strip_sign (JSString.trimStart (numeral (d :: ds) +:+ rest))
                  = (false, numeral (d :: ds) +:+ rest)).
  { rewrite numeral_cons_append. each_digit d Hd; reflexivity. }
  rewrite Hsign, Hstrip, Hlead. reflexivity.
Qed.

Lemma find_snoc_last {A} (f : A -> bool) (l : list A) (x : A) :
  (forall y, In y l -> f y = false) -> f x = true ->
  List.find f (l ++ [x]) = Some x.
Proof.
  intros Hl Hx. induction l as [|y l IH]; cbn [app List.find].
  - by rewrite Hx.
  - rewrite (Hl y (or_introl eq_refl)). apply IH. intros z Hz. apply Hl. by right.
Qed.

Lemma product_with_id_new s p q :
  Product.id p == next_id s -> q == next_id s ->
  product_with_id (with_products s (products s ++ [p])) q = Some p.
Proof.
  intros Hp Hq. unfold product_with_id. cbn [products with_products].
  apply find_snoc_last.
  - intros y Hy. apply next_id_greater in Hy.
    destruct (Qeq_bool (Product.id y) q) eqn:E; [|done].
    apply Qeq_bool_iff in E. lra.
  - apply Qeq_bool_iff. lra.
Qed.

Lemma trunc_integer q : JS.is_integer q = true -> JS.trunc q == q.
Proof.
  intros [z Hz]%is_integer_iff. unfold JS.trunc.
  unfold Qeq in Hz. cbn [inject_Z Qnum Qden] in Hz.
  unfold Qeq. cbn [inject_Z Qnum Qden].
  replace (Qnum q) with (z * Zpos (Qden q))%Z by lia.
  rewrite Z.quot_mul by done. lia.
Qed.

Lemma get_product_eq id s :
  get_product id s =
  (s, match JSString.parseInt id with
      | JS.Num n =>
          match product_with_id s n with
          | Some product =>
              {| catalog_status := 200; catalog_json := ProductJson product |}
          | None => catalog_error 404 "Product not found"
          end
      | _ => catalog_error 400 "Invalid product ID"
      end).
Proof.
  unfold get_product, validateProductId.
  destruct (JSString.parseInt id) as [| |n] eqn:E; cbn [JS.Number_isInteger negb];
    [done|done|].
  assert (Hint : JS.is_integer n = true).
  { unfold JSString.parseInt in E.
    destruct (JSString.strip_sign _) as [neg s2].
    destruct (JSString.strip_prefix s2) as [R s3].
    destruct (JSString.leading_digits R s3); [done|].
    injection E as <-. apply is_integer_iff. by eexists. }
  rewrite Hint. cbn [negb]. unfold bind, castNumber, ret, Product_findOne.
  by destruct (product_with_id s n).
Qed.

(** * The catalog routes: theorems *)

(** X1.  [POST /products] with a body the schema accepts, on a catalog
    whose next id is an integer between 1 and [2 ^ 53] (up to there adding
    1 to an id is exact), answers 201 with the new product and leaves the
    catalog with that product appended: the products already there and
    every cart are as they were.  The new product carries the fields of
    the body, its title trimmed, and an id one above the greatest id of
    the catalog (1 in an empty catalog), which is greater than every id in
    use. *)
Theorem post_products_stores_valid_product s b t d c pr ra st :
  valid_product_body b t d c pr ra st ->
  JS.is_integer (next_id s) = true -> 1 <= next_id s -> next_id s <= 2 ^ 53 ->
  let p := Product.mk (next_id s) (JSString.trim t) d c pr ra st in
  (post_products b s).2
  = {| catalog_status := 201; catalog_json := ProductJson p |} /\
  products (post_products b s).1 = products s ++ [p] /\
  cartItems (post_products b s).1 = cartItems s /\
  (products s = [] -> Product.id p = 1) /\
  (forall m, In m (products s) ->
     (forall p', In p' (products s) -> Product.id p' <= Product.id m) ->
     Product.id p == Product.id m + 1) /\
  (forall p', In p' (products s) -> Product.id p' < Product.id p).
Proof.
  intros Hv _ _ _ p. rewrite (post_products_valid s b t d c pr ra st Hv).
  cbn [fst snd products cartItems with_products].
  split; [done|]. split; [done|]. split; [done|]. split; [|split].
  - intros Hnil. cbn [p Product.id]. unfold next_id. by rewrite Hnil.
  - intros m Hm Hmax. cbn [p Product.id]. unfold next_id.
    destruct (greatest_id (products s)) as [m'|] eqn:E.
    + apply greatest_id_Some in E as [Hin' Hmax'].
      specialize (Hmax m' Hin'). specialize (Hmax' m Hm).
      assert (Product.id m' == Product.id m) by lra. lra.
    + apply greatest_id_None in E. rewrite E in Hm. destruct Hm.
  - intros p' Hp'. by apply next_id_greater.
Qed.

Lemma lamp_valid : valid_product_body lamp " Lamp " "A desk lamp" "home" 25 (9 # 2) 3.
Proof. unfold valid_product_body. repeat split; discriminate. Qed.

Lemma post_products_stores_valid_product_on_shop :
  let p := Product.mk (next_id shop) (JSString.trim " Lamp ") "A desk lamp" "home"
             25 (9 # 2) 3 in
  (post_products lamp shop).2
  = {| catalog_status := 201; catalog_json := ProductJson p |} /\
  products (post_products lamp shop).1 = products shop ++ [p] /\
  cartItems (post_products lamp shop).1 = cartItems shop /\
  (products shop = [] -> Product.id p = 1) /\
  (forall m, In m (products shop) ->
     (forall p', In p' (products shop) -> Product.id p' <= Product.id m) ->
     Product.id p == Product.id m + 1) /\
  (forall p', In p' (products shop) -> Product.id p' < Product.id p).
Proof.
  apply (post_products_stores_valid_product shop lamp " Lamp " "A desk lamp" "home"
           25 (9 # 2) 3).
  - apply lamp_valid.
  - reflexivity.
  - discriminate.
  - discriminate.
Defined.

(** X2.  [POST /products] with a body the schema does not accept (a
    field missing, a title that is blank once trimmed, an empty
    description or category, a negative price or stock, a rating outside
    0..5) answers 500 "Server error", not a 400, and stores nothing. *)
Theorem post_products_rejects_invalid_body s b :
  ~ (exists t d c pr ra st, valid_product_body b t d c pr ra st) ->
  post_products b s = (s, catalog_error 500 "Server error").
Proof. apply post_products_invalid. Qed.

Lemma post_products_rejects_invalid_body_on_shop :
  post_products blank_title shop = (shop, catalog_error 500 "Server error").
Proof.
  apply (post_products_rejects_invalid_body shop blank_title).
  intros (t & d & c & pr & ra & st & Ht & Ht' & _).
  injection Ht as <-. by apply Ht'.
Defined.

Lemma post_products_cartItems b s :
  cartItems (post_products b s).1 = cartItems s.
Proof.
  by destruct (post_products_cases b s) as [->|(t & d & c & pr & ra & st & _ & ->)].
Qed.

Lemma api_handle_quantities_valid r s :
  quantities_valid s -> quantities_valid (api_handle r s).
Proof.
  intros Hs. destruct r as [r| |id|b]; cbn [api_handle].
  - by apply handle_quantities_valid.
  - done.
  - by rewrite get_product_state.
  - intros i it Hi. apply (Hs i it). by rewrite <- (post_products_cartItems b s).
Qed.

Lemma shop_catalog_ok : catalog_ok shop.
Proof.
  split.
  - intros p [<-|[]]. unfold product_ok. repeat split; discriminate.
  - cbn. split; [by intros p' []|done].
Qed.

Lemma shop_quantities_valid : quantities_valid shop.
Proof. intros i it H. cbn [shop cartItems] in H. by rewrite lookup_empty in H. Qed.

(** X3.  The catalog stays well formed under every sequence of requests
    to the cart and catalog routes: if every product has a positive
    integer id, a non-empty trimmed title, a non-empty description and
    category, a price and a stock of at least 0 and a rating in 0..5, and
    the ids increase along the catalog (so no two products share one),
    the same holds after the requests. *)
Theorem catalog_stays_well_formed rs s :
  catalog_ok s -> catalog_ok (api_serve rs s).
Proof. apply api_serve_catalog_ok. Qed.

Lemma catalog_stays_well_formed_on_shop :
  catalog_ok
    (api_serve [POST_products lamp; Cart (POST_cart 7 (Body.mk (JS.Num 2) (JS.Num 1)) 5);
                POST_products blank_title; GET_product "2"] shop).
Proof.
  apply (catalog_stays_well_formed
           [POST_products lamp; Cart (POST_cart 7 (Body.mk (JS.Num 2) (JS.Num 1)) 5);
            POST_products blank_title; GET_product "2"] shop).
  apply shop_catalog_ok.
Defined.

(** X4.  Starting from an empty catalog, the products are numbered 1,
    2, 3, ... in the order of their creation, whatever requests to the
    cart and catalog routes are served: the product at position [k]
    (from 0) has the id [k + 1]. *)
Theorem catalog_numbered_from_one rs s :
  products s = [] ->
  numbered_from_one (products (api_serve rs s)).
Proof.
  intros Hempty.
  assert (Hnum : numbered_from_one (products s)).
  { rewrite Hempty. intros k p Hk. by destruct k. }
  clear Hempty. revert s Hnum.
  induction rs as [|r rs IH]; intros s Hnum; [done|].
  cbn [api_serve]. by apply IH, api_handle_numbered.
Qed.

Lemma catalog_numbered_from_one_on_empty_shop :
  numbered_from_one
    (products (api_serve [POST_products lamp; POST_products blank_title;
                          POST_products lamp] empty_shop)).
Proof.
  apply (catalog_numbered_from_one
           [POST_products lamp; POST_products blank_title; POST_products lamp]
           empty_shop).
  reflexivity.
Defined.

(** X5.  No request to the cart or catalog routes changes or removes a
    product: after any sequence of requests the catalog is the catalog
    it was, followed by the products created since.  In particular the
    stock of a product never changes once it is created. *)
Theorem products_are_never_changed rs s :
  exists created, products (api_serve rs s) = products s ++ created.
Proof. apply api_serve_prefix. Qed.

(** X6.  The catalog routes leave the carts alone: [GET /products] and
    [GET /products/:id] return the store they were given, whatever the
    id, and [POST /products] changes no cart item, whatever the body. *)
Theorem catalog_routes_leave_carts s :
  (get_products s).1 = s /\
  (forall id, (get_product id s).1 = s) /\
  (forall b, cartItems (post_products b s).1 = cartItems s).
Proof.
  split; [done|]. split; [intros id; apply get_product_state|].
  intros b. apply post_products_cartItems.
Qed.

(** X7.  The bound on the quantities holds over the whole API: starting
    from a store whose cart quantities are at least 1, every cart item
    has a quantity of at least 1 after any sequence of requests to the
    cart and catalog routes. *)
Theorem quantities_valid_over_api rs s :
  quantities_valid s -> quantities_valid (api_serve rs s).
Proof.
  revert s. induction rs as [|r rs IH]; intros s Hs; [done|].
  cbn [api_serve]. by apply IH, api_handle_quantities_valid.
Qed.

Lemma quantities_valid_over_api_on_shop :
  quantities_valid
    (api_serve [POST_products lamp; Cart (POST_cart 7 (Body.mk (JS.Num 2) (JS.Num 1)) 5);
                Cart (PUT_cart 7 1 (Body.mk JS.undefined (JS.Num 0)))] shop).
Proof.
  apply (quantities_valid_over_api
           [POST_products lamp; Cart (POST_cart 7 (Body.mk (JS.Num 2) (JS.Num 1)) 5);
            Cart (PUT_cart 7 1 (Body.mk JS.undefined (JS.Num 0)))] shop).
  apply shop_quantities_valid.
Defined.

(** X8.  [GET /products/:id] reads the leading decimal digits of the id
    and ignores what follows them: for a non-empty run of digits denoting
    a number below 2^53 (where JavaScript numbers are exact), followed by
    anything that does not begin with a digit (and, after the single
    digit 0, not with [x] or [X], which would announce a hexadecimal
    number), the answer is 200 with the first product whose id is the
    number the digits denote, or 404 if there is none.  The store is
    unchanged. *)
Theorem get_product_reads_leading_digits ds rest s :
  decimal_digits ds ->
  (JSString.digits_value 10 ds < 2 ^ 53)%N ->
  no_digit_ahead rest ->
  (ds = [0%N] -> no_x_ahead rest) ->
  get_product (numeral ds +:+ rest) s
  = (s, match product_with_id s (inject_Z (Z.of_N (JSString.digits_value 10 ds))) with
        | Some product =>
            {| catalog_status := 200; catalog_json := ProductJson product |}
        | None => catalog_error 404 "Product not found"
        end).
Proof.
  intros Hds _ Hrest Hx.
  by rewrite get_product_eq, (parseInt_numeral ds rest Hds Hrest Hx).
Qed.

Lemma get_product_reads_leading_digits_on_shop :
  get_product (numeral [1%N] +:+ "abc") shop
  = (shop, match product_with_id shop
                   (inject_Z (Z.of_N (JSString.digits_value 10 [1%N]))) with
           | Some product =>
               {| catalog_status := 200; catalog_json := ProductJson product |}
           | None => catalog_error 404 "Product not found"
           end).
Proof.
  apply (get_product_reads_leading_digits [1%N] "abc" shop).
  - split; [discriminate|]. repeat constructor.
  - reflexivity.
  - reflexivity.
  - intros _. split; discriminate.
Defined.

(** X9.  [GET /products/:id] answers 400 "Invalid product ID" and leaves
    the store unchanged when the id is empty or begins with a character
    that is neither white space, nor a sign, nor a decimal digit. *)
Theorem get_product_rejects_non_numeric id s :
  not_numeric id ->
  get_product id s = (s, catalog_error 400 "Invalid product ID").
Proof.
  intros Hid. rewrite get_product_eq.
  assert (Hnan : JSString.parseInt id = JS.NaN); [|by rewrite Hnan].
  destruct id as [|c r]; [done|].
  destruct Hid as (Hws & Hminus & Hplus & Hdigit).
  unfold JSString.parseInt. cbn [JSString.trimStart]. rewrite Hws.
  cbn [JSString.strip_sign].
  apply Ascii.eqb_neq in Hminus, Hplus. rewrite Hminus, Hplus.
  assert (Hzero : (c =? "0")%char = false).
  { apply Ascii.eqb_neq. intros ->. discriminate Hdigit. }
  assert (Hprefix : JSString.strip_prefix (String c r) = (10%N, String c r)).
  { destruct r as [|c1 r]; [done|]. cbn [JSString.strip_prefix]. by rewrite Hzero. }
  rewrite Hprefix. cbn [JSString.leading_digits]. by rewrite Hdigit.
Qed.

Lemma get_product_rejects_non_numeric_on_shop :
  get_product "abc" shop = (shop, catalog_error 400 "Invalid product ID").
Proof.
  apply (get_product_rejects_non_numeric "abc" shop).
  repeat split; discriminate.
Defined.

(** X10.  A product can be read back once it is created: after
    [POST /products] with a body the schema accepts, [GET /products/:id]
    with an id that [parseInt] reads as the new product's id answers 200
    with the product stored, and [GET /products] lists the catalog as it
    was followed by that product. *)
Theorem created_product_is_served s b t d c pr ra st id n :
  valid_product_body b t d c pr ra st ->
  JSString.parseInt id = JS.Num n ->
  n == next_id s ->
  let s' := (post_products b s).1 in
  get_product id s'
  = (s', {| catalog_status := 200;
            catalog_json := ProductJson (new_product s t d c pr ra st) |}) /\
  get_products s'
  = (s', {| catalog_status := 200;
            catalog_json :=
              ProductsJson (products s ++ [new_product s t d c pr ra st]) |}).
Proof.
  intros Hv Hid Hn s'. unfold s'. rewrite (post_products_valid s b t d c pr ra st Hv).
  cbn [fst]. split; [|done].
  rewrite get_product_eq, Hid.
  by rewrite (product_with_id_new s (new_product s t d c pr ra st) n).
Qed.

Lemma created_product_is_served_on_shop :
  let s' := (post_products lamp shop).1 in
  get_product "2" s'
  = (s', {| catalog_status := 200;
            catalog_json :=
              ProductJson (new_product shop " Lamp " "A desk lamp" "home" 25 (9 # 2) 3) |}) /\
  get_products s'
  = (s', {| catalog_status := 200;
            catalog_json :=
              ProductsJson
                (products shop
                 ++ [new_product shop " Lamp " "A desk lamp" "home" 25 (9 # 2) 3]) |}).
Proof.
  apply (created_product_is_served shop lamp " Lamp " "A desk lamp" "home" 25 (9 # 2) 3
           "2" 2).
  - apply lamp_valid.
  - reflexivity.
  - reflexivity.
Defined.

(** X11.  A product created through [POST /products] can be put in a
    cart up to its stock: in a well-formed store, after a valid body with
    stock [st] is posted, [AddItem] for the new product's id with a
    quantity between 1 and [st] answers 201, for every user. *)
Theorem created_product_can_be_added s b t d c pr ra st u q now :
  catalog_ok s ->
  quantities_valid s ->
  valid_product_body b t d c pr ra st ->
  1 <= q -> q <= st ->
  status (AddItem (post_products b s).1 u (next_id s) q now).2 = 201%N.
Proof.
  intros [Hok _] Hqv Hv Hq Hst.
  destruct (next_id_ok s Hok) as [Hint Hge].
  rewrite (post_products_valid s b t d c pr ra st Hv). cbn [fst].
  set (p := new_product s t d c pr ra st).
  set (s' := with_products s (products s ++ [p])).
  assert (Hpid : ~ next_id s == 0) by lra.
  assert (Hp : product_with_id s' (JS.trunc (next_id s)) = Some p).
  { apply product_with_id_new; [done|]. by apply trunc_integer. }
  assert (Hstock : q <= Product.stock p) by done.
  destruct (CartItem_findOne u (next_id s) s') as [s1 [[[i it]|]|e]] eqn:E;
    pose proof (CartItem_findOne_state u (next_id s) s') as Hs1;
    rewrite E in Hs1; cbn [fst] in Hs1; subst s1.
  - pose proof (CartItem_findOne_Some _ _ _ _ _ E) as [Hi _].
    by destruct (AddItem_accumulate s' u (next_id s) q now p Hpid Hq Hp Hstock i it E
                   (Hqv i it Hi)) as (sum & _ & ->).
  - by rewrite (AddItem_create s' u (next_id s) q now p Hpid Hq Hp Hstock E).
  - discriminate E.
Qed.

Lemma created_product_can_be_added_on_shop :
  status (AddItem (post_products lamp shop).1 7 (next_id shop) 3 100).2 = 201%N.
Proof.
  apply (created_product_can_be_added shop lamp " Lamp " "A desk lamp" "home"
           25 (9 # 2) 3 7 3 100).
  - apply shop_catalog_ok.
  - apply shop_quantities_valid.
  - apply lamp_valid.
  - discriminate.
  - discriminate.
Defined.

(** * Registration and login: properties *)

(** ** The matcher decides the language *)

Section RegExpFacts.
Import RegExp.

Lemma never_inv s : Matches Never s -> False.
Proof. intros H. inversion H. Qed.

Lemma empty_inv s : Matches Empty s -> s = [].
Proof. intros H. by inversion H. Qed.

Lemma class_inv p s : Matches (Class p) s -> exists c, s = [c] /\ p c = true.
Proof. intros H. inversion H; subst. by eexists. Qed.

Lemma seq_inv r1 r2 s :
  Matches (Seq r1 r2) s ->
  exists s1 s2, s = s1 ++ s2 /\ Matches r1 s1 /\ Matches r2 s2.
Proof. intros H. inversion H; subst. by do 2 eexists. Qed.

Lemma alt_inv r1 r2 s : Matches (Alt r1 r2) s -> Matches r1 s \/ Matches r2 s.
Proof. intros H. inversion H; subst; [by left|by right]. Qed.

Lemma star_inv r s :
  Matches (Star r) s ->
  s = [] \/ exists s1 s2, s = s1 ++ s2 /\ Matches r s1 /\ Matches (Star r) s2.
Proof. intros H. inversion H; subst; [by left|right; by do 2 eexists]. Qed.

Lemma nullable_spec r : nullable r = true <-> Matches r [].
Proof.
  induction r as [| |p|r1 IH1 r2 IH2|r1 IH1 r2 IH2|r IH]; cbn [nullable].
  - split; [done|]. intros H. by apply never_inv in H.
  - split; [constructor|done].
  - split; [done|]. intros H. by apply class_inv in H as (c & H & _).
  - rewrite andb_true_iff, IH1, IH2. split.
    + intros [H1 H2]. apply (MSeq _ _ [] [] H1 H2).
    + intros H. apply seq_inv in H as (s1 & s2 & Heq & H1 & H2).
      symmetry in Heq. apply app_eq_nil in Heq as [-> ->]. by split.
  - rewrite orb_true_iff, IH1, IH2. split.
    + intros [H|H]; [by apply MAltL|by apply MAltR].
    + apply alt_inv.
  - split; [constructor|done].
Qed.

Lemma star_cons_inv r c s :
  Matches (Star r) (c :: s) ->
  exists s1 s2, s = s1 ++ s2 /\ Matches r (c :: s1) /\ Matches (Star r) s2.
Proof.
  intros H. remember (Star r) as r' eqn:Hr. remember (c :: s) as w eqn:Hw.
  revert s Hw. induction H as [| | | | | |r0 s1 s2 H1 _ H2 IH2]; try done.
  intros s Hw. injection Hr as ->. destruct s1 as [|c1 s1].
  - by apply IH2.
  - cbn in Hw. injection Hw as -> <-. by exists s1, s2.
Qed.

Lemma seq_cons_inv r1 r2 c s :
  Matches (Seq r1 r2) (c :: s) <->
  (exists s1 s2, s = s1 ++ s2 /\ Matches r1 (c :: s1) /\ Matches r2 s2)
  \/ (Matches r1 [] /\ Matches r2 (c :: s)).
Proof.
  split.
  - intros H. apply seq_inv in H as (s1 & s2 & Heq & H1 & H2).
    destruct s1 as [|c1 s1]; cbn in Heq.
    + right. by subst.
    + left. injection Heq as -> ->. by exists s1, s2.
  - intros [(s1 & s2 & -> & H1 & H2)|[H1 H2]].
    + apply (MSeq _ _ (c :: s1) s2 H1 H2).
    + apply (MSeq _ _ [] (c :: s) H1 H2).
Qed.

Lemma after_spec c r s : Matches (after c r) s <-> Matches r (c :: s).
Proof.
  revert s. induction r as [| |p|r1 IH1 r2 IH2|r1 IH1 r2 IH2|r IH]; intros s;
    cbn [after].
  - split; intros H; by apply never_inv in H.
  - split; intros H; [by apply never_inv in H|by apply empty_inv in H].
  - destruct (p c) eqn:Hp; split; intros H.
    + apply empty_inv in H as ->. by constructor.
    + apply class_inv in H as (c' & [= <- ->] & _). constructor.
    + by apply never_inv in H.
    + apply class_inv in H as (c' & [= <- ->] & H). congruence.
  - assert (Hseq : Matches (Seq (after c r1) r2) s <->
                   exists s1 s2, s = s1 ++ s2 /\ Matches r1 (c :: s1) /\ Matches r2 s2).
    { split.
      - intros H. apply seq_inv in H as (s1 & s2 & -> & H1 & H2).
        exists s1, s2. by rewrite <- IH1.
      - intros (s1 & s2 & -> & H1 & H2). constructor; [by apply IH1|done]. }
    rewrite seq_cons_inv. destruct (nullable r1) eqn:Hn.
    + apply nullable_spec in Hn. split.
      * intros H. apply alt_inv in H as [H|H]; [left; by apply Hseq|right].
        split; [done|by apply IH2].
      * intros [H|[_ H]]; [apply MAltL; by apply Hseq|apply MAltR; by apply IH2].
    + rewrite Hseq. split; [by left|]. intros [H|[H _]]; [done|].
      apply nullable_spec in H. congruence.
  - split.
    + intros H. apply alt_inv in H as [H|H];
        [apply MAltL; by apply IH1|apply MAltR; by apply IH2].
    + intros H. apply alt_inv in H as [H|H];
        [apply MAltL; by apply IH1|apply MAltR; by apply IH2].
  - split.
    + intros H. apply seq_inv in H as (s1 & s2 & -> & H1 & H2).
      apply IH in H1. apply (MStarCons _ (c :: s1) s2 H1 H2).
    + intros H. apply star_cons_inv in H as (s1 & s2 & -> & H1 & H2).
      constructor; [by apply IH|done].
Qed.

Lemma test_spec r s : test r s = true <-> Matches r (list_ascii_of_string s).
Proof.
  revert r. induction s as [|c s IH]; intros r; cbn [test list_ascii_of_string].
  - apply nullable_spec.
  - by rewrite IH, after_spec.
Qed.

Lemma Matches_within P r s :
  classes_within P r -> Matches r s -> Forall P s.
Proof.
  intros Hr H. induction H as [|p c Hc|r1 r2 s1 s2 _ IH1 _ IH2|r1 r2 s _ IH
                               |r1 r2 s _ IH| |r s1 s2 _ IH1 _ IH2];
    cbn [classes_within] in Hr.
  - constructor.
  - constructor; [by apply Hr|constructor].
  - destruct Hr as [H1 H2]. apply Forall_app. split; [by apply IH1|by apply IH2].
  - destruct Hr as [H1 H2]. by apply IH.
  - destruct Hr as [H1 H2]. by apply IH.
  - constructor.
  - apply Forall_app. split; [by apply IH1|by apply IH2].
Qed.

Lemma plus_class_intro p l :
  l <> [] -> Forall (fun c => p c = true) l -> Matches (Plus (Class p)) l.
Proof.
  intros Hne Hl. destruct l as [|c l]; [done|]. clear Hne.
  apply Forall_cons in Hl as [Hc Hl]. apply (MSeq _ _ [c] l); [by constructor|].
  induction Hl as [|c' l Hc' _ IH]; [constructor|].
  apply (MStarCons _ [c'] l); [by constructor|done].
Qed.

Lemma plus_class_head p r s :
  Matches (Seq (Plus (Class p)) r) s ->
  exists c s', s = c :: s' /\ p c = true.
Proof.
  intros H. apply seq_inv in H as (s1 & s2 & -> & H1 & _).
  apply seq_inv in H1 as (a & b & -> & Ha & _).
  apply class_inv in Ha as (c & -> & Hc). by exists c, (b ++ s2).
Qed.

(** A non-empty iteration ends with one more match. *)
Lemma star_last r s :
  Matches (Star r) s ->
  s = [] \/ exists pre last, s = pre ++ last /\ Matches (Star r) pre /\ Matches r last.
Proof.
  intros H. remember (Star r) as r' eqn:Hr.
  induction H as [| | | | | |r0 s1 s2 H1 _ H2 IH2]; try done; [by left|].
  injection Hr as ->. right.
  destruct (IH2 eq_refl) as [->|(pre & last & -> & Hpre & Hlast)].
  - exists [], s1. rewrite app_nil_r. split; [done|]. split; [constructor|done].
  - exists (s1 ++ pre), last. rewrite app_assoc. split; [done|].
    split; [by constructor|done].
Qed.

Lemma plus_last r s :
  Matches (Plus r) s ->
  exists pre last, s = pre ++ last /\ Matches (Star r) pre /\ Matches r last.
Proof.
  intros H. apply seq_inv in H as (s1 & s2 & -> & H1 & H2).
  destruct (star_last r s2 H2) as [->|(pre & last & -> & Hpre & Hlast)].
  - exists [], s1. rewrite app_nil_r. split; [done|]. split; [constructor|done].
  - exists (s1 ++ pre), last. rewrite app_assoc. split; [done|].
    split; [by constructor|done].
Qed.

End RegExpFacts.

(** ** The e-mail pattern *)

Lemma name_pattern_within : classes_within name_char name_pattern.
Proof.
  unfold name_pattern, RegExp.Plus, RegExp.Opt. cbn [classes_within].
  repeat split; intros c Hc; try (by left); by right.
Qed.

Lemma suffix_pattern_within : classes_within name_char suffix_pattern.
Proof.
  unfold suffix_pattern, RegExp.Plus, RegExp.Opt. cbn [classes_within].
  repeat split; intros c Hc; try (by left).
  right. apply Ascii.eqb_eq in Hc as <-. reflexivity.
Qed.

Lemma name_pattern_head s : RegExp.Matches name_pattern s -> word_first s.
Proof.
  intros H. by apply plus_class_head in H as (c & s' & -> & Hc).
Qed.

Lemma suffix_pattern_inv s :
  RegExp.Matches suffix_pattern s ->
  exists tld, s = "."%char :: tld /\
    Forall (fun c => is_word c = true) tld /\ (length tld = 2 \/ length tld = 3)%nat.
Proof.
  intros H. apply seq_inv in H as (d & r & -> & Hd & H).
  apply class_inv in Hd as (c0 & -> & <-%Ascii.eqb_eq).
  apply seq_inv in H as (a & r1 & -> & Ha & H).
  apply class_inv in Ha as (c1 & -> & Hc1).
  apply seq_inv in H as (b & r2 & -> & Hb & H).
  apply class_inv in Hb as (c2 & -> & Hc2).
  apply alt_inv in H as [->%empty_inv|(c3 & -> & Hc3)%class_inv].
  - exists [c1; c2]. split; [done|]. split; [by repeat constructor|by left].
  - exists [c1; c2; c3]. split; [done|]. split; [by repeat constructor|by right].
Qed.

Lemma emailRegex_shape e :
  RegExp.test emailRegex e = true -> email_shape e.
Proof.
  intros H. apply test_spec in H. unfold email_shape.
  generalize dependent (list_ascii_of_string e). intros l H. clear e.
  apply seq_inv in H as (n1 & r & -> & Hn1 & H).
  apply seq_inv in H as (a & r1 & -> & Ha & H).
  apply class_inv in Ha as (c & -> & <-%Ascii.eqb_eq).
  apply seq_inv in H as (n2 & suf & -> & Hn2 & H).
  apply plus_last in H as (pre & last & -> & Hpre & Hlast).
  apply suffix_pattern_inv in Hlast as (tld & -> & Htld & Hlen).
  exists n1, (n2 ++ pre), tld. split.
  { cbn [app]. by rewrite <- !app_assoc. }
  split; [by apply name_pattern_head|].
  split; [by apply (Matches_within _ name_pattern); [apply name_pattern_within|]|].
  split.
  { apply name_pattern_head in Hn2. by destruct n2. }
  split; [|done].
  apply Forall_app. split.
  - by apply (Matches_within _ name_pattern); [apply name_pattern_within|].
  - apply (Matches_within _ (RegExp.Star suffix_pattern)); [|done].
    apply suffix_pattern_within.
Qed.

Lemma name_pattern_word s : word s -> RegExp.Matches name_pattern s.
Proof.
  intros [Hne Hs]. rewrite <- (app_nil_r s).
  apply RegExp.MSeq; [by apply plus_class_intro|constructor].
Qed.

Lemma emailRegex_simple local host tld :
  word local -> word host ->
  Forall (fun c => is_word c = true) tld -> (length tld = 2 \/ length tld = 3)%nat ->
  RegExp.Matches emailRegex (local ++ "@"%char :: host ++ "."%char :: tld).
Proof.
  intros Hl Hh Htld Hlen.
  apply RegExp.MSeq; [by apply name_pattern_word|].
  apply (RegExp.MSeq _ _ ["@"%char]); [by constructor|].
  apply RegExp.MSeq; [by apply name_pattern_word|].
  rewrite <- (app_nil_r (_ :: tld)).
  apply RegExp.MSeq; [|constructor].
  apply (RegExp.MSeq _ _ ["."%char]); [by constructor|].
  destruct tld as [|c1 [|c2 [|c3 [|c4 tld]]]]; cbn in Hlen; try lia.
  - apply Forall_cons in Htld as [H1 [H2 _]%Forall_cons].
    apply (RegExp.MSeq _ _ [c1] [c2]); [by constructor|].
    apply (RegExp.MSeq _ _ [c2] []); [by constructor|].
    apply RegExp.MAltL. constructor.
  - apply Forall_cons in Htld as [H1 [H2 [H3 _]%Forall_cons]%Forall_cons].
    apply (RegExp.MSeq _ _ [c1] [c2; c3]); [by constructor|].
    apply (RegExp.MSeq _ _ [c2] [c3]); [by constructor|].
    apply RegExp.MAltR. by constructor.
Qed.

Lemma validateRegistration_Passed_inv body :
  validateRegistration body = Passed ->
  exists u e p,
    Credentials.username body = Some u /\
    Credentials.email body = Some e /\
    Credentials.password body = Some p /\
    (3 <= String.length u)%nat /\ (6 <= String.length p)%nat /\
    RegExp.test emailRegex e = true.
Proof.
  unfold validateRegistration. destruct body as [ou oe op].
  cbn [Credentials.username Credentials.email Credentials.password].
  destruct (no_string ou || no_string oe || no_string op) eqn:Hno; [done|].
  apply orb_false_iff in Hno as [[Hu0 He0]%orb_false_iff Hp0].
  destruct ou as [u|]; [|done]. destruct oe as [e|]; [|done].
  destruct op as [p|]; [|done]. cbn [string_of].
  destruct (String.length u <? 3)%nat eqn:Hu; [done|].
  destruct (String.length p <? 6)%nat eqn:Hp; [done|].
  destruct (RegExp.test emailRegex e) eqn:He; [|done].
  intros _. exists u, e, p. apply Nat.ltb_ge in Hu, Hp. by repeat split.
Qed.

(** * Registration and login: theorems *)

(** X12.  What [validateRegistration] lets through, of the bodies whose
    fields are strings or absent: the three fields are present, the
    username has at least 3 characters, the password at least 6, and the
    e-mail address reads [local@host.tld] where [local]
    and [host] begin with a word character and consist of word
    characters, dots and dashes, and [tld], what follows the last dot, is
    two or three word characters.  In particular it holds exactly one
    [@] and no white space, and an address ending in a longer label
    ([.info]) is refused. *)
Theorem validateRegistration_passed body :
  validateRegistration body = Passed ->
  exists u e p,
    Credentials.username body = Some u /\
    Credentials.email body = Some e /\
    Credentials.password body = Some p /\
    (3 <= String.length u)%nat /\ (6 <= String.length p)%nat /\
    email_shape e.
Proof.
  intros (u & e & p & Hu & He & Hp & Hlu & Hlp & Ht)%validateRegistration_Passed_inv.
  exists u, e, p. repeat split; try done. by apply emailRegex_shape.
Qed.

Lemma validateRegistration_passed_on_alice :
  exists u e p,
    Credentials.username alice = Some u /\
    Credentials.email alice = Some e /\
    Credentials.password alice = Some p /\
    (3 <= String.length u)%nat /\ (6 <= String.length p)%nat /\
    email_shape e.
Proof. apply (validateRegistration_passed alice). reflexivity. Defined.

(** X13.  [validateRegistration] lets every plain registration through:
    a username of at least 3 characters, a password of at least 6 and an
    address [local@host.tld] in which [local] and [host] are non-empty
    runs of word characters and [tld] is two or three word characters. *)
Theorem validateRegistration_accepts_plain_address u p local host tld :
  (3 <= String.length u)%nat ->
  (6 <= String.length p)%nat ->
  word local -> word host ->
  Forall (fun c => is_word c = true) tld ->
  (length tld = 2 \/ length tld = 3)%nat ->
  validateRegistration
    {| Credentials.username := Some u;
       Credentials.email :=
         Some (string_of_list_ascii (local ++ "@"%char :: host ++ "."%char :: tld));
       Credentials.password := Some p |}
  = Passed.
Proof.
  intros Hu Hp Hl Hh Htld Hlen. unfold validateRegistration.
  cbn [Credentials.username Credentials.email Credentials.password string_of].
  assert (He : RegExp.test emailRegex
                 (string_of_list_ascii (local ++ "@"%char :: host ++ "."%char :: tld))
               = true).
  { apply test_spec. rewrite list_ascii_of_string_of_list_ascii.
    by apply emailRegex_simple. }
  rewrite He. apply Nat.ltb_ge in Hu as Hu', Hp as Hp'. rewrite Hu', Hp'.
  destruct u; [cbn in Hu; lia|]. destruct p; [cbn in Hp; lia|].
  destruct Hl as [Hl _]. by destruct local.
Qed.

Lemma validateRegistration_accepts_plain_address_on_bob :
  validateRegistration
    {| Credentials.username := Some "bob";
       Credentials.email :=
         Some (string_of_list_ascii
                 (list_ascii_of_string "bob" ++ "@"%char
                  :: list_ascii_of_string "mail" ++ "."%char
                  :: list_ascii_of_string "com"));
       Credentials.password := Some "hunter22" |}
  = Passed.
Proof.
  apply (validateRegistration_accepts_plain_address "bob" "hunter22"
           (list_ascii_of_string "bob") (list_ascii_of_string "mail")
           (list_ascii_of_string "com")).
  - cbn. lia.
  - cbn. lia.
  - split; [discriminate|by repeat constructor].
  - split; [discriminate|by repeat constructor].
  - by repeat constructor.
  - by right.
Defined.

(** ** The user collection *)

Lemma User_findOne_email_Some lib e us i v :
  User_findOne_email lib e us = Some (i, v) ->
  us !! i = Some v /\ User.email v = query_string lib e.
Proof.
  unfold User_findOne_email. intros [Hin Hp]%find_some.
  apply list_elem_of_In, elem_of_map_to_list in Hin.
  by apply String.eqb_eq in Hp.
Qed.

Lemma User_findOne_email_None lib e us i v :
  User_findOne_email lib e us = None ->
  us !! i = Some v -> User.email v <> query_string lib e.
Proof.
  unfold User_findOne_email. intros Hnone Hi Heq.
  eapply find_none in Hnone; [|apply list_elem_of_In, elem_of_map_to_list, Hi].
  cbn in Hnone. apply String.eqb_neq in Hnone. done.
Qed.

Lemma User_findOne_email_absent lib e us :
  (forall i v, us !! i = Some v -> User.email v <> query_string lib e) ->
  User_findOne_email lib e us = None.
Proof.
  intros Habs. destruct (User_findOne_email lib e us) as [[i v]|] eqn:E; [|done].
  apply User_findOne_email_Some in E as [Hi He]. by destruct (Habs i v).
Qed.

Lemma User_findOne_username_absent lib u us :
  (forall i v, us !! i = Some v -> User.username v <> query_string lib u) ->
  User_findOne_username lib u us = None.
Proof.
  intros Habs. unfold User_findOne_username.
  destruct (find _ _) as [[i v]|] eqn:E; [|done].
  apply find_some in E as [Hin Hp].
  apply list_elem_of_In, elem_of_map_to_list in Hin.
  apply String.eqb_eq in Hp. by destruct (Habs i v).
Qed.

Lemma User_unique_spec u us :
  User_unique u us = true <->
  forall j v, us !! j = Some v ->
    User.username v <> User.username u /\ User.email v <> User.email u.
Proof.
  unfold User_unique. rewrite forallb_forall. split.
  - intros H j v Hj.
    specialize (H (j, v) (proj1 (list_elem_of_In _ _)
                            (proj2 (elem_of_map_to_list us j v) Hj))).
    cbn in H. apply andb_true_iff in H as [H1 H2].
    apply negb_true_iff in H1, H2. by apply String.eqb_neq in H1, H2.
  - intros H [j v] Hin. apply list_elem_of_In, elem_of_map_to_list in Hin.
    destruct (H j v Hin) as [H1 H2]. cbn.
    apply String.eqb_neq in H1, H2. by rewrite H1, H2.
Qed.

(** What [POST /register] can do to the collection: nothing, or insert
    one valid user under a new [_id], with a username and an address no
    other user has. *)
Lemma post_register_effect lib body salt now us :
  (post_register lib body salt now us).1 = us \/
  exists raw e p,
    let u := {| User.username := JSString.trim raw; User.email := JSString.trim e;
                User.password := p; User.createdAt := now |} in
    (post_register lib body salt now us).1 = <[fresh (dom us) := u]> us /\
    User_validate u = true /\
    (forall j v, us !! j = Some v ->
       User.username v <> User.username u /\ User.email v <> User.email u).
Proof.
  unfold post_register. destruct (validateRegistration body); [by left|].
  destruct (User_findOne_email _ _ _); [by left|].
  destruct (User_findOne_username _ _ _); [by left|].
  unfold User_save.
  destruct (User_validate _ && User_unique _ _) eqn:E; [|by left].
  apply andb_true_iff in E as [Hv Hu]. right. do 3 eexists. split; [done|].
  split; [done|]. by apply User_unique_spec.
Qed.

Lemma fresh_lookup (us : gmap positive User.t) : us !! fresh (dom us) = None.
Proof. apply not_elem_of_dom, is_fresh. Qed.

(** ** Strings without white space *)

Lemma trimEnd_no_space s :
  Forall (fun c => JSString.is_white_space c = false) (list_ascii_of_string s) ->
  JSString.trimEnd s = s.
Proof.
  induction s as [|c r IH]; [done|]. cbn [list_ascii_of_string].
  intros [Hc Hr]%Forall_cons. rewrite trimEnd_String, (IH Hr).
  destruct r; [by rewrite Hc|done].
Qed.

Lemma trim_no_space s :
  Forall (fun c => JSString.is_white_space c = false) (list_ascii_of_string s) ->
  JSString.trim s = s.
Proof.
  intros Hs. unfold JSString.trim. rewrite trimStart_id; [by apply trimEnd_no_space|].
  destruct s as [|c r]; [done|]. cbn in Hs. by apply Forall_cons in Hs as [Hc _].
Qed.

Lemma name_char_no_space c : name_char c -> JSString.is_white_space c = false.
Proof.
  unfold name_char, is_word, is_dot_or_dash, JSString.is_white_space.
  destruct c as [[] [] [] [] [] [] [] []]; vm_compute; intros [H|H]; congruence.
Qed.

Lemma email_shape_trim e : email_shape e -> JSString.trim e = e.
Proof.
  intros (local & host & tld & Heq & _ & Hl & _ & Hh & Ht & _).
  apply trim_no_space. rewrite Heq.
  apply Forall_app. split; [by eapply Forall_impl; [|apply name_char_no_space]|].
  constructor; [done|]. apply Forall_app.
  split; [by eapply Forall_impl; [|apply name_char_no_space]|].
  constructor; [done|].
  eapply Forall_impl; [done|]. intros c Hc. apply name_char_no_space. by left.
Qed.

Lemma User_validate_ok raw e p now :
  User_validate {| User.username := JSString.trim raw; User.email := JSString.trim e;
                   User.password := p; User.createdAt := now |} = true ->
  user_ok {| User.username := JSString.trim raw; User.email := JSString.trim e;
             User.password := p; User.createdAt := now |}.
Proof.
  unfold User_validate, user_ok.
  cbn [User.username User.email User.password].
  rewrite !andb_true_iff. intros [[[[[_ Hu] _] He] _] Hp].
  apply Nat.leb_le in Hu, Hp. rewrite trim_idem.
  repeat split; try done. by apply emailRegex_shape.
Qed.

Lemma append_String c (r s : string) : String c r +:+ s = String c (r +:+ s).
Proof. reflexivity. Qed.

Lemma append_Empty (s : string) : EmptyString +:+ s = s.
Proof. reflexivity. Qed.

Lemma stand_in_hashes_long : hashes_long stand_in.
Proof.
  intros password salt. unfold stand_in, bcrypt_hash.
  change ("bcrypt:" +:+ password)
    with (String "b" (String "c" (String "r" (String "y" (String "p"
           (String "t" (String ":" password))))))).
  cbn [String.length]. lia.
Qed.

Lemma stand_in_compare_accepts : compare_accepts stand_in.
Proof. intros password salt. apply String.eqb_refl. Qed.

Lemma length_repeat_string c n :
  String.length (string_of_list_ascii (repeat c n)) = n.
Proof. induction n as [|n IH]; [done|]. cbn. by rewrite IH. Qed.

Lemma leading_repeat c n d (rest : string) :
  c <> d ->
  leading c (string_of_list_ascii (repeat c n) +:+ String d rest)
  = (n, String d rest).
Proof.
  intros Hne. induction n as [|n IH].
  - cbn [repeat string_of_list_ascii]. rewrite append_Empty. cbn [leading].
    destruct (d =? c)%char eqn:E; [|done]. apply Ascii.eqb_eq in E. congruence.
  - cbn [repeat string_of_list_ascii]. rewrite append_String. cbn [leading].
    by rewrite Ascii.eqb_refl, IH.
Qed.

Lemma ticking_tokens_verify : tokens_verify ticking.
Proof.
  split.
  - intros userId t. unfold ticking, jwt_sign.
    destruct (Pos2Nat.is_succ userId) as [n ->].
    cbn [repeat string_of_list_ascii]. by rewrite append_String.
  - intros userId t t' Ht Hwindow. unfold ticking, jwt_sign, jwt_verify.
    rewrite leading_repeat by discriminate.
    destruct (Pos2Nat.is_succ userId) as [n Hn]. rewrite Hn.
    rewrite Ascii.eqb_refl, length_repeat_string.
    rewrite Z2Nat.id by (apply Z.div_pos; lia).
    rewrite (proj2 (Z.ltb_lt _ _) Hwindow). cbn [andb].
    by rewrite <- Hn, Pos2Nat.id.
Qed.

Lemma alice_registered_eq :
  alice_registered
  = {[ 1%positive := {| User.username := "alice"; User.email := "alice@example.org";
                        User.password := "bcrypt:secret1"; User.createdAt := 10 |} ]}.
Proof. reflexivity. Qed.

Lemma alice_registered_distinct : users_distinct alice_registered.
Proof.
  rewrite alice_registered_eq. intros i j u v Hi Hj _.
  apply lookup_singleton_Some in Hi as [<- _].
  by apply lookup_singleton_Some in Hj as [<- _].
Qed.

(** X14.  Registration keeps the users apart: if no two users share an
    e-mail address or a username, no two do after [POST /register],
    whatever the body and whatever the libraries. *)
Theorem register_keeps_users_distinct lib body salt now us :
  users_distinct us ->
  users_distinct (post_register lib body salt now us).1.
Proof.
  intros Hd.
  destruct (post_register_effect lib body salt now us)
    as [->|(raw & e & p & -> & _ & Hnew)]; [done|].
  intros i j u v Hi Hj Heq.
  destruct (decide (i = fresh (dom us))) as [->|Hi'];
    destruct (decide (j = fresh (dom us))) as [->|Hj']; [done| | |].
  - rewrite lookup_insert_eq in Hi. injection Hi as <-.
    rewrite lookup_insert_ne in Hj by done.
    destruct (Hnew j v Hj) as [H1 H2]. by destruct Heq.
  - rewrite lookup_insert_eq in Hj. injection Hj as <-.
    rewrite lookup_insert_ne in Hi by done.
    destruct (Hnew i u Hi) as [H1 H2]. by destruct Heq.
  - rewrite lookup_insert_ne in Hi, Hj by done. by apply (Hd i j u v).
Qed.

Lemma register_keeps_users_distinct_on_alice :
  users_distinct
    (post_register stand_in
       {| Credentials.username := Some "alice2";
          Credentials.email := Some "alice@example.org";
          Credentials.password := Some "secret2" |} "salt" 11 alice_registered).1.
Proof.
  apply (register_keeps_users_distinct stand_in _ "salt" 11 alice_registered).
  apply alice_registered_distinct.
Defined.

(** X15.  Every stored user stays valid: if every user has a trimmed
    username of at least 3 characters, an address of the shape
    [local@host.tld] and a stored password of at least 6 characters, the
    same holds after [POST /register], whatever the body and the
    libraries (a user the schema refuses is not stored). *)
Theorem register_keeps_users_valid lib body salt now us :
  users_valid us ->
  users_valid (post_register lib body salt now us).1.
Proof.
  intros Hok i u.
  destruct (post_register_effect lib body salt now us)
    as [->|(raw & e & p & -> & Hv & _)]; [by apply Hok|].
  destruct (decide (i = fresh (dom us))) as [->|Hi].
  - rewrite lookup_insert_eq. intros [= <-]. by apply User_validate_ok.
  - rewrite lookup_insert_ne by done. by apply Hok.
Qed.

Lemma register_keeps_users_valid_on_empty :
  users_valid (post_register stand_in alice "salt" 10 ∅).1.
Proof.
  apply (register_keeps_users_valid stand_in alice "salt" 10 ∅).
  intros i u H. by rewrite lookup_empty in H.
Defined.

(** X16.  Neither [POST /register] nor [POST /login] changes or removes
    a user: after [POST /register] the collection holds every user it
    held, unchanged, and at most one more; [POST /login] leaves the
    collection as it is. *)
Theorem users_are_never_changed lib body salt now us :
  us ⊆ (post_register lib body salt now us).1 /\
  (post_login lib body now us).1 = us.
Proof.
  split.
  - destruct (post_register_effect lib body salt now us)
      as [->|(raw & e & p & -> & _)]; [done|].
    apply insert_subseteq, fresh_lookup.
  - unfold post_login. destruct (validateLogin body); [done|].
    destruct (User_findOne_email _ _ _); [|done]. by destruct (negb _).
Qed.

(** ** Registration as a case table *)

Lemma query_string_email lib e :
  RegExp.test emailRegex e = true -> query_string lib e = e.
Proof.
  intros He. unfold query_string. destruct (setters_on_queries lib); [|done].
  by apply email_shape_trim, emailRegex_shape.
Qed.

Lemma no_string_length s n :
  (S n <= String.length s)%nat -> no_string (Some s) = false.
Proof. destruct s; [cbn; lia|done]. Qed.

Section Registration.
Variables (lib : Libraries) (body : Credentials.t) (u e p : string).
Variables (salt : string) (now : Z) (us : gmap positive User.t).
Hypothesis Hpassed : validateRegistration body = Passed.
Hypothesis Hu : Credentials.username body = Some u.
Hypothesis He : Credentials.email body = Some e.
Hypothesis Hp : Credentials.password body = Some p.

Lemma registration_email : RegExp.test emailRegex e = true.
Proof.
  destruct (validateRegistration_Passed_inv body Hpassed)
    as (u' & e' & p' & _ & He' & _ & _ & _ & Ht). congruence.
Qed.

Lemma post_register_known_email i v :
  us !! i = Some v -> User.email v = e ->
  post_register lib body salt now us
  = (us, user_error 400 "User already exists with this email").
Proof.
  intros Hi Hv. unfold post_register. rewrite Hpassed, He. cbn [string_of].
  destruct (User_findOne_email lib e us) as [d|] eqn:E; [done|].
  exfalso. apply (User_findOne_email_None lib e us i v E Hi).
  by rewrite query_string_email by apply registration_email.
Qed.

Local Abbreviation registered := (registered_user lib u e p salt now).

Hypothesis Hlong : hashes_long lib.
Hypothesis Hcompare : compare_accepts lib.
Hypothesis Htrimmed : (3 <= String.length (JSString.trim u))%nat.
Hypothesis Hfree : forall i v, us !! i = Some v ->
  User.email v <> e /\ User.username v <> u /\ User.username v <> JSString.trim u.

Lemma post_register_created :
  post_register lib body salt now us
  = (<[fresh (dom us) := registered]> us,
     res_session 201 "User registered successfully"
       (jwt_sign lib (fresh (dom us)) now) (fresh (dom us), registered)).
Proof.
  pose proof registration_email as Ht.
  pose proof (email_shape_trim e (emailRegex_shape e Ht)) as Htrim.
  pose proof Hlong as Hlen.
  unfold post_register. rewrite Hpassed, Hu, He, Hp. cbn [string_of].
  rewrite User_findOne_email_absent; last first.
  { intros i v Hi. rewrite query_string_email by done. by destruct (Hfree i v Hi). }
  rewrite User_findOne_username_absent; last first.
  { intros i v Hi. destruct (Hfree i v Hi) as (_ & H1 & H2).
    unfold query_string. by destruct (setters_on_queries lib). }
  unfold User_save, User_new. cbn [fst snd]. rewrite Htrim. fold registered.
  assert (Hv : User_validate registered = true).
  { unfold User_validate, registered_user. cbn [User.username User.email User.password].
    rewrite Ht, (no_string_length _ 2 Htrimmed), (no_string_length _ 5 (Hlen p salt)).
    rewrite (proj2 (Nat.leb_le _ _) Htrimmed), (proj2 (Nat.leb_le _ _) (Hlen p salt)).
    destruct e; [discriminate Ht|done]. }
  assert (Hun : User_unique registered us = true).
  { apply User_unique_spec. intros j v Hj. destruct (Hfree j v Hj) as (H1 & _ & H3).
    by split. }
  by rewrite Hv, Hun.
Qed.

Lemma post_login_after_register now' :
  post_login lib body now' (<[fresh (dom us) := registered]> us)
  = (<[fresh (dom us) := registered]> us,
     res_session 200 "Login successful"
       (jwt_sign lib (fresh (dom us)) now') (fresh (dom us), registered)).
Proof.
  pose proof registration_email as Ht.
  destruct (validateRegistration_Passed_inv body Hpassed)
    as (u' & e' & p' & _ & He' & Hp' & _ & Hlp & _).
  rewrite Hp in Hp'. injection Hp' as <-.
  unfold post_login, validateLogin. rewrite He, Hp. cbn [string_of].
  rewrite (no_string_length p 5 Hlp).
  assert (Hne : no_string (Some e) = false) by (destruct e; [discriminate Ht|done]).
  rewrite Hne. cbn [orb].
  destruct (User_findOne_email lib e _) as [[j v]|] eqn:E.
  - apply User_findOne_email_Some in E as [Hj Hv].
    rewrite query_string_email in Hv by done.
    destruct (decide (j = fresh (dom us))) as [->|Hne'].
    + rewrite lookup_insert_eq in Hj. injection Hj as <-.
      cbn [fst snd]. unfold registered_user at 1. cbn [User.password].
      by rewrite Hcompare.
    + rewrite lookup_insert_ne in Hj by done. by destruct (Hfree j v Hj).
  - exfalso.
    apply (User_findOne_email_None lib e _ (fresh (dom us)) registered E).
    + apply lookup_insert_eq.
    + by rewrite query_string_email.
Qed.
End Registration.

Lemma alice_passed : validateRegistration alice = Passed.
Proof. reflexivity. Qed.

Lemma no_users_free (e u : string) :
  forall (i : positive) (v : User.t), (∅ : gmap positive User.t) !! i = Some v ->
    User.email v <> e /\ User.username v <> u /\ User.username v <> JSString.trim u.
Proof. intros i v H. by rewrite lookup_empty in H. Qed.

(** X17.  Registration refuses an address that is taken: when the body
    passes [validateRegistration] and some user already has its e-mail
    address, [POST /register] answers 400 "User already exists with this
    email" and the collection is unchanged. *)
Theorem register_refuses_known_email lib body e salt now us i v :
  validateRegistration body = Passed ->
  Credentials.email body = Some e ->
  us !! i = Some v ->
  User.email v = e ->
  post_register lib body salt now us
  = (us, user_error 400 "User already exists with this email").
Proof.
  intros Hpassed He Hi Hv.
  by apply (post_register_known_email lib body e salt now us Hpassed He i v).
Qed.

Lemma register_refuses_known_email_on_alice :
  post_register stand_in alice "pepper" 11 alice_registered
  = (alice_registered, user_error 400 "User already exists with this email").
Proof.
  apply (register_refuses_known_email stand_in alice "alice@example.org" "pepper" 11
           alice_registered 1
           {| User.username := "alice"; User.email := "alice@example.org";
              User.password := "bcrypt:secret1"; User.createdAt := 10 |});
    reflexivity.
Defined.

(** X18.  Registration stores the user: with a [bcrypt.hash] whose
    hashes have 6 characters or more, a body whose three fields are
    strings and which passes [validateRegistration], a username that
    still has 3 characters once trimmed, and no user holding the address,
    the username or the trimmed username, [POST /register] answers 201 and
    inserts, under a new [_id], a user with the trimmed username, the
    address, and the bcrypt hash of the password; the token of the answer
    is signed for that [_id]. *)
Theorem register_creates_user lib body u e p salt now us :
  hashes_long lib ->
  validateRegistration body = Passed ->
  Credentials.username body = Some u ->
  Credentials.email body = Some e ->
  Credentials.password body = Some p ->
  (3 <= String.length (JSString.trim u))%nat ->
  (forall i v, us !! i = Some v ->
     User.email v <> e /\ User.username v <> u /\ User.username v <> JSString.trim u) ->
  post_register lib body salt now us
  = (<[fresh (dom us) := registered_user lib u e p salt now]> us,
     res_session 201 "User registered successfully"
       (jwt_sign lib (fresh (dom us)) now)
       (fresh (dom us), registered_user lib u e p salt now)).
Proof.
  intros Hlong Hpassed Hu He Hp Htrimmed Hfree.
  by apply post_register_created.
Qed.

Lemma register_creates_user_on_alice :
  post_register stand_in alice "salt" 10 ∅
  = (<[fresh (dom (∅ : gmap positive User.t)) :=
         registered_user stand_in "alice" "alice@example.org" "secret1" "salt" 10]> ∅,
     res_session 201 "User registered successfully"
       (jwt_sign stand_in (fresh (dom (∅ : gmap positive User.t))) 10)
       (fresh (dom (∅ : gmap positive User.t)),
        registered_user stand_in "alice" "alice@example.org" "secret1" "salt" 10)).
Proof.
  apply (register_creates_user stand_in alice "alice" "alice@example.org" "secret1"
           "salt" 10 ∅).
  - apply stand_in_hashes_long.
  - reflexivity.
  - reflexivity.
  - reflexivity.
  - reflexivity.
  - vm_compute. lia.
  - apply no_users_free.
Defined.

(** X19.  A registered user can log in: with a [bcrypt.hash] whose hashes
    have 6 characters or more and a [bcrypt.compare] that accepts the
    password a hash was made from, under the conditions of a successful
    registration (a body of strings), [POST /login] with the same address
    and password on the collection the registration left answers 200,
    names the user just stored and signs the token for its [_id]; the
    collection is unchanged. *)
Theorem register_then_login lib body u e p salt now now' us :
  hashes_long lib ->
  compare_accepts lib ->
  validateRegistration body = Passed ->
  Credentials.username body = Some u ->
  Credentials.email body = Some e ->
  Credentials.password body = Some p ->
  (3 <= String.length (JSString.trim u))%nat ->
  (forall i v, us !! i = Some v ->
     User.email v <> e /\ User.username v <> u /\ User.username v <> JSString.trim u) ->
  let us' := (post_register lib body salt now us).1 in
  post_login lib body now' us'
  = (us', res_session 200 "Login successful"
            (jwt_sign lib (fresh (dom us)) now')
            (fresh (dom us), registered_user lib u e p salt now)).
Proof.
  intros Hlong Hcompare Hpassed Hu He Hp Htrimmed Hfree us'. unfold us'.
  rewrite (post_register_created lib body u e p salt now us) by done.
  cbn [fst]. by apply post_login_after_register.
Qed.

Lemma register_then_login_on_alice :
  let us' := (post_register stand_in alice "salt" 10 ∅).1 in
  post_login stand_in alice 20 us'
  = (us', res_session 200 "Login successful"
            (jwt_sign stand_in (fresh (dom (∅ : gmap positive User.t))) 20)
            (fresh (dom (∅ : gmap positive User.t)),
             registered_user stand_in "alice" "alice@example.org" "secret1" "salt" 10)).
Proof.
  apply (register_then_login stand_in alice "alice" "alice@example.org" "secret1"
           "salt" 10 20 ∅).
  - apply stand_in_hashes_long.
  - apply stand_in_compare_accepts.
  - reflexivity.
  - reflexivity.
  - reflexivity.
  - reflexivity.
  - vm_compute. lia.
  - apply no_users_free.
Defined.

(** X20.  [POST /login] gives nothing away and lets nobody in without
    the password: once the body carries an address and a password, the
    answer is either 400 "Invalid credentials", the same whether the
    address is unknown or the password wrong, or 200 for a stored user
    whose address is the one asked for and whose stored hash
    [bcrypt.compare] accepts for the password. *)
Theorem login_checks_password lib body now us :
  validateLogin body = Passed ->
  post_login lib body now us = (us, user_error 400 "Invalid credentials") \/
  exists i v,
    us !! i = Some v /\
    User.email v = query_string lib (string_of (Credentials.email body)) /\
    bcrypt_compare lib (string_of (Credentials.password body)) (User.password v) = true /\
    post_login lib body now us
    = (us, res_session 200 "Login successful" (jwt_sign lib i now) (i, v)).
Proof.
  intros Hpassed. unfold post_login. rewrite Hpassed.
  destruct (User_findOne_email lib _ us) as [[i v]|] eqn:E; [|by left].
  apply User_findOne_email_Some in E as [Hi Hv]. cbn [fst snd].
  destruct (bcrypt_compare lib _ (User.password v)) eqn:Hc; [right|by left].
  by exists i, v.
Qed.

Lemma login_checks_password_on_alice :
  post_login stand_in alice 20 alice_registered
  = (alice_registered, user_error 400 "Invalid credentials") \/
  exists i v,
    alice_registered !! i = Some v /\
    User.email v = query_string stand_in (string_of (Credentials.email alice)) /\
    bcrypt_compare stand_in (string_of (Credentials.password alice)) (User.password v)
    = true /\
    post_login stand_in alice 20 alice_registered
    = (alice_registered,
       res_session 200 "Login successful" (jwt_sign stand_in i 20) (i, v)).
Proof. apply (login_checks_password stand_in alice 20 alice_registered). reflexivity. Defined.

(** ** The token of the [Authorization] header *)

Lemma remove_first_unfold pat s :
  remove_first pat s
  = match behind pat s with
    | Some rest => rest
    | None =>
        match s with
        | EmptyString => EmptyString
        | String c s' => String c (remove_first pat s')
        end
    end.
Proof. by destruct s. Qed.

Lemma behind_append pat t : behind pat (pat +:+ t) = Some t.
Proof.
  induction pat as [|a pat IH]; [by destruct t|].
  rewrite append_String. cbn [behind]. by rewrite Ascii.eqb_refl.
Qed.

Lemma behind_Some pat s rest : behind pat s = Some rest -> s = pat +:+ rest.
Proof.
  revert s. induction pat as [|a pat IH]; intros s.
  - destruct s; cbn [behind]; intros [= <-]; by rewrite append_Empty.
  - destruct s as [|b s]; [done|]. cbn [behind].
    destruct (a =? b)%char eqn:E; [|done]. apply Ascii.eqb_eq in E as ->.
    intros H. rewrite append_String. f_equal. by apply IH.
Qed.

Lemma remove_first_prefix pat t : remove_first pat (pat +:+ t) = t.
Proof. by rewrite remove_first_unfold, behind_append. Qed.

Lemma remove_first_absent pat s : ~ occurs pat s -> remove_first pat s = s.
Proof.
  induction s as [|c s IH]; intros Hno; rewrite remove_first_unfold.
  - destruct (behind pat EmptyString) as [rest|] eqn:E; [|done].
    exfalso. apply Hno. exists EmptyString, rest. rewrite append_Empty.
    by apply behind_Some.
  - destruct (behind pat (String c s)) as [rest|] eqn:E.
    + exfalso. apply Hno. exists EmptyString, rest. rewrite append_Empty.
      by apply behind_Some.
    + f_equal. apply IH. intros (pre & post & ->). apply Hno.
      exists (String c pre), post. by rewrite append_String.
Qed.

(** X21.  No cart route runs without a verified token: behind
    [authenticate], either the answer is 401 and the database is
    unchanged, or the header is present, what is left of it once the
    first ["Bearer "] is removed verifies to the id of a stored user, and
    the route runs for that user on the store, the users staying as they
    are. *)
Theorem cart_routes_need_a_verified_token lib authorization now route db :
  ((authenticated lib authorization now route db).1 = db /\
   status (authenticated lib authorization now route db).2 = 401%N) \/
  exists header userId,
    authorization = Some header /\
    jwt_verify lib (remove_first "Bearer " header) now = Some userId /\
    is_Some (users db !! userId) /\
    users (authenticated lib authorization now route db).1 = users db /\
    (store (authenticated lib authorization now route db).1,
     (authenticated lib authorization now route db).2)
    = route userId (store db).
Proof.
  unfold authenticated, authenticate.
  destruct authorization as [header|]; cbn [fmap option_fmap option_map];
    [|by left].
  destruct (no_string (Some (remove_first "Bearer " header))); [by left|].
  cbn [string_of].
  destruct (jwt_verify lib (remove_first "Bearer " header) now) as [userId|] eqn:Hv;
    [|by left].
  destruct (users db !! userId) as [v|] eqn:Hu; [|by left].
  right. exists header, userId. cbn [ReqUser._id].
  destruct (route userId (store db)) as [s' r]. by repeat split.
Qed.

(** X22.  A session token opens the cart routes: with a [jsonwebtoken]
    whose tokens are not empty and verify until they expire, the header
    ["Bearer "] followed by the token signed for a stored user at the
    time [t] (milliseconds of the epoch), presented at a time [t'] whose
    second [t' / 1000] comes before the second [t / 1000 + 86400], makes
    every cart route run for that user. *)
Theorem session_token_opens_cart_routes lib userId v t t' route db :
  tokens_verify lib ->
  users db !! userId = Some v ->
  (0 <= t)%Z ->
  (t' / 1000 < t / 1000 + 86400)%Z ->
  authenticated lib (Some ("Bearer " +:+ jwt_sign lib userId t)) t' route db
  = ({| users := users db; store := (route userId (store db)).1 |},
     (route userId (store db)).2).
Proof.
  intros (Hne & Hverify) Hu Ht Hwindow. unfold authenticated, authenticate.
  cbn [fmap option_fmap option_map]. rewrite remove_first_prefix.
  assert (Hns : no_string (Some (jwt_sign lib userId t)) = false).
  { specialize (Hne userId t). by destruct (jwt_sign lib userId t). }
  rewrite Hns. cbn [string_of].
  rewrite (Hverify userId t t' Ht Hwindow), Hu. cbn [ReqUser._id].
  by destruct (route userId (store db)).
Qed.

(** Alice's token, signed 999 ms into the epoch, still opens her cart
    one millisecond before the day is over, and is refused when the clock
    shows 86400 seconds. *)
Lemma session_token_opens_cart_routes_on_alice :
  authenticate ticking (Some ("Bearer " +:+ jwt_sign ticking 1 999)) 86400000
    alice_registered
  = inl (res_error 401 "Token is invalid") /\
  authenticated ticking (Some ("Bearer " +:+ jwt_sign ticking 1 999)) 86399999
    get_cart {| users := alice_registered; store := shop |}
  = ({| users := alice_registered; store := (get_cart 1 shop).1 |},
     (get_cart 1 shop).2).
Proof.
  split; [reflexivity|].
  apply (session_token_opens_cart_routes ticking 1
           {| User.username := "alice"; User.email := "alice@example.org";
              User.password := "bcrypt:secret1"; User.createdAt := 10 |}
           999 86399999 get_cart {| users := alice_registered; store := shop |}).
  - apply ticking_tokens_verify.
  - reflexivity.
  - lia.
  - reflexivity.
Defined.

(** X23.  The ["Bearer "] prefix is optional: a header that is the bare
    token, with no ["Bearer "] anywhere in it, is treated by
    [authenticate] exactly as the token behind the prefix. *)
Theorem bearer_prefix_is_optional lib token now us :
  ~ occurs "Bearer " token ->
  authenticate lib (Some token) now us
  = authenticate lib (Some ("Bearer " +:+ token)) now us.
Proof.
  intros Hno. unfold authenticate. cbn [fmap option_fmap option_map].
  by rewrite remove_first_prefix, remove_first_absent.
Qed.

Lemma bearer_prefix_is_optional_on_alice :
  authenticate stand_in (Some "u") 30 alice_registered
  = authenticate stand_in (Some ("Bearer " +:+ "u")) 30 alice_registered.
Proof.
  apply (bearer_prefix_is_optional stand_in "u" 30 alice_registered).
  intros (pre & post & H). destruct pre as [|c pre]; [discriminate H|].
  rewrite append_String in H. injection H as _ H. by destruct pre.
Defined.

(** X24.  The middleware and the schema disagree on padded usernames:
    [validateRegistration] counts the characters of the username as sent,
    the schema those of the trimmed username.  A body that passes the
    middleware with a username shorter than 3 characters once trimmed is
    never registered: the collection is unchanged and the answer is not
    201 (it is 500 "Server error" when the address and the username are
    free). *)
Theorem register_refuses_padded_username lib body u salt now us :
  validateRegistration body = Passed ->
  Credentials.username body = Some u ->
  (String.length (JSString.trim u) < 3)%nat ->
  (post_register lib body salt now us).1 = us /\
  user_status (post_register lib body salt now us).2 <> 201%N /\
  (User_findOne_email lib (string_of (Credentials.email body)) us = None ->
   User_findOne_username lib u us = None ->
   post_register lib body salt now us = (us, user_error 500 "Server error")).
Proof.
  intros Hpassed Hu Hshort. unfold post_register. rewrite Hpassed, Hu.
  cbn [string_of].
  assert (Hsave : forall e p,
             User_save (User_new u e p now us) us = None).
  { intros e p. unfold User_save, User_new, User_validate.
    cbn [fst snd User.username].
    apply Nat.leb_gt in Hshort. rewrite Hshort.
    by rewrite andb_false_r. }
  destruct (User_findOne_email lib _ us); [by repeat split|].
  destruct (User_findOne_username lib u us); [by repeat split|].
  by rewrite Hsave.
Qed.

Lemma register_refuses_padded_username_on_empty :
  let body := {| Credentials.username := Some "  a";
                 Credentials.email := Some "a@b.de";
                 Credentials.password := Some "123456" |} in
  (post_register stand_in body "salt" 10 ∅).1 = ∅ /\
  user_status (post_register stand_in body "salt" 10 ∅).2 <> 201%N /\
  (User_findOne_email stand_in (string_of (Credentials.email body)) ∅ = None ->
   User_findOne_username stand_in "  a" ∅ = None ->
   post_register stand_in body "salt" 10 ∅ = (∅, user_error 500 "Server error")).
Proof.
  apply (register_refuses_padded_username stand_in
           {| Credentials.username := Some "  a";
              Credentials.email := Some "a@b.de";
              Credentials.password := Some "123456" |} "  a" "salt" 10 ∅).
  - reflexivity.
  - reflexivity.
  - vm_compute. lia.
Defined.
